(** * Access control and audit engine of the role-based user management backend

    A shallow embedding of the permission resolver, the authorization gates,
    the override store and the audit log read path of [backend/app], with the
    properties the specification states about them.

    The relational store is a record of three tables.  Rows are records with
    the columns of the SQLAlchemy models; a query is a function on the table.
    Python [int] columns are [Z]; a [limit] or [skip] query parameter is a
    natural number (a negative LIMIT or OFFSET is refused by the database and
    is not part of this model). *)

From Stdlib Require Import ZArith.
From stdpp Require Import gmap strings list fin_maps sorting pretty.

Local Open Scope string_scope.
Local Open Scope Z_scope.

(** ** Enumerations: [app/models/user.py], [app/models/user_page_access.py] *)

(** [class UserRole(str, enum.Enum)] *)
Inductive UserRole := ADMIN | MANAGER | AGENT | VIEWER.

(** [class PageName(str, enum.Enum)] *)
Inductive PageName :=
  DASHBOARD | INTERVIEWS | CANDIDATES | CALLS | SETTINGS | USER_MANAGEMENT.

(** The [.value] of a member; the enums are [str] enums, so a member also
    compares equal to this string. *)
Definition UserRole_value (r : UserRole) : string :=
  match r with
  | ADMIN => "admin"
  | MANAGER => "manager"
  | AGENT => "agent"
  | VIEWER => "viewer"
  end.

Definition PageName_value (p : PageName) : string :=
  match p with
  | DASHBOARD => "dashboard"
  | INTERVIEWS => "interviews"
  | CANDIDATES => "candidates"
  | CALLS => "calls"
  | SETTINGS => "settings"
  | USER_MANAGEMENT => "user_management"
  end.

Definition all_pages : list PageName :=
  [DASHBOARD; INTERVIEWS; CANDIDATES; CALLS; SETTINGS; USER_MANAGEMENT].

#[global] Instance UserRole_eq_dec : EqDecision UserRole.
Proof. solve_decision. Defined.

#[global] Instance PageName_eq_dec : EqDecision PageName.
Proof. solve_decision. Defined.

Definition UserRole_code (r : UserRole) : nat :=
  match r with ADMIN => 0 | MANAGER => 1 | AGENT => 2 | VIEWER => 3 end%nat.

Definition UserRole_decode (n : nat) : UserRole :=
  match n with 0 => ADMIN | 1 => MANAGER | 2 => AGENT | _ => VIEWER end%nat.

Definition PageName_code (p : PageName) : nat :=
  match p with
  | DASHBOARD => 0 | INTERVIEWS => 1 | CANDIDATES => 2
  | CALLS => 3 | SETTINGS => 4 | USER_MANAGEMENT => 5
  end%nat.

Definition PageName_decode (n : nat) : PageName :=
  match n with
  | 0 => DASHBOARD | 1 => INTERVIEWS | 2 => CANDIDATES
  | 3 => CALLS | 4 => SETTINGS | _ => USER_MANAGEMENT
  end%nat.

#[global] Instance UserRole_countable : Countable UserRole.
Proof.
  apply (inj_countable' UserRole_code UserRole_decode).
  intros []; reflexivity.
Defined.

#[global] Instance PageName_countable : Countable PageName.
Proof.
  apply (inj_countable' PageName_code PageName_decode).
  intros []; reflexivity.
Defined.

#[global] Instance PageName_value_inj : Inj (=) (=) PageName_value.
Proof. intros [] [] H; (reflexivity || discriminate H). Qed.

#[global] Instance UserRole_value_inj : Inj (=) (=) UserRole_value.
Proof. intros [] [] H; (reflexivity || discriminate H). Qed.

(** ** Rows: [app/models/*.py] *)

(** [class User(Base)], table [users]. *)
Module User.
Record t := mk {
  id : Z;
  email : string;
  full_name : string;
  password_hash : string;
  role : UserRole;
  active : bool
}.
End User.

(** [class UserPageAccess(Base)], table [user_page_access]. *)
Module UserPageAccess.
Record t := mk {
  id : Z;
  user_id : Z;
  page_name : PageName;
  has_access : bool;
  created_at : Z;
  updated_at : option Z
}.
End UserPageAccess.

(** [class AuditLog(Base)], table [audit_logs].  The JSON [meta_data] column
    is an opaque payload, never read by the logic, and is left out. *)
Module AuditLog.
Record t := mk {
  id : Z;
  actor_id : Z;
  action : string;
  target : option string;
  target_user_id : option Z;
  timestamp : Z
}.
End AuditLog.

(** [class AuditLogCreate(AuditLogBase)] of [app/schemas/audit_log.py],
    without the payload. *)
Module AuditLogCreate.
Record t := mk {
  actor_id : Z;
  action : string;
  target : option string;
  target_user_id : option Z
}.
End AuditLogCreate.

(** The dictionary an audit read endpoint builds for one entry: the columns
    and the two names resolved through the relationships. *)
Module AuditLogOut.
Record t := mk {
  id : Z;
  actor_id : Z;
  action : string;
  target : option string;
  target_user_id : option Z;
  timestamp : Z;
  actor_name : option string;
  target_user_name : option string
}.
End AuditLogOut.

#[global] Instance UserPageAccess_eq_dec : EqDecision UserPageAccess.t.
Proof. solve_decision. Defined.

#[global] Instance AuditLog_eq_dec : EqDecision AuditLog.t.
Proof. solve_decision. Defined.

(** The store behind a [Session]: the three tables, each in row order. *)
Record Session := mkSession {
  users : list User.t;
  user_page_access : list UserPageAccess.t;
  audit_logs : list AuditLog.t
}.

(** [fastapi.HTTPException(status_code, detail)]; a dependency or an endpoint
    either raises one or returns. *)
Record HTTPException := mkHTTPException {
  status_code : Z;
  detail : string
}.

Definition Result (A : Type) : Type := HTTPException + A.

Definition HTTP_400_BAD_REQUEST : Z := 400.
Definition HTTP_403_FORBIDDEN : Z := 403.
Definition HTTP_404_NOT_FOUND : Z := 404.

(** ** Permission resolver: [CRUDUser.get_user_permissions] *)

(** The local table [role_permissions]. *)
Definition role_permissions : gmap UserRole (gmap PageName bool) :=
  {[ ADMIN :=
       {[ DASHBOARD := true; INTERVIEWS := true; CANDIDATES := true;
          CALLS := true; SETTINGS := true; USER_MANAGEMENT := true ]};
     MANAGER :=
       {[ DASHBOARD := true; INTERVIEWS := true; CANDIDATES := true;
          CALLS := true; SETTINGS := true; USER_MANAGEMENT := false ]};
     AGENT :=
       {[ DASHBOARD := true; INTERVIEWS := true; CANDIDATES := false;
          CALLS := true; SETTINGS := true; USER_MANAGEMENT := false ]};
     VIEWER :=
       {[ DASHBOARD := true; INTERVIEWS := false; CANDIDATES := false;
          CALLS := false; SETTINGS := true; USER_MANAGEMENT := false ]} ]}.

(** [db.query(UserPageAccess).filter(UserPageAccess.user_id == uid).all()] *)
Definition overrides_of (db : Session) (uid : Z) : list UserPageAccess.t :=
  filter (λ o, UserPageAccess.user_id o = uid) (user_page_access db).

(** The loop [for override in overrides: permissions[override.page_name] =
    override.has_access]. *)
Definition apply_overrides (permissions : gmap PageName bool)
    (overrides : list UserPageAccess.t) : gmap PageName bool :=
  foldl (λ perms override,
           <[UserPageAccess.page_name override :=
               UserPageAccess.has_access override]> perms)
        permissions overrides.

(** The body of [get_user_permissions] over an arbitrary role table:
    [tbl.get(user.role, {})], the override loop, then the comprehension that
    rekeys the dictionary by [page.value]. *)
Definition get_user_permissions_with
    (tbl : gmap UserRole (gmap PageName bool))
    (db : Session) (user : User.t) : gmap string bool :=
  let permissions := default ∅ (tbl !! User.role user) in
  let overrides := overrides_of db (User.id user) in
  let permissions := apply_overrides permissions overrides in
  kmap PageName_value permissions.

Definition get_user_permissions (db : Session) (user : User.t)
    : gmap string bool :=
  get_user_permissions_with role_permissions db user.

(** ** Authorization gates: [app/api/deps.py] *)

(** [get_current_admin_user]: [current_user.role != "admin"] compares the
    [str] enum member with the string. *)
Definition get_current_admin_user (current_user : User.t) : Result User.t :=
  if negb (String.eqb (UserRole_value (User.role current_user)) "admin")
  then inl (mkHTTPException HTTP_403_FORBIDDEN "Not enough permissions")
  else inr current_user.

Definition access_denied (page_name : PageName) : HTTPException :=
  mkHTTPException HTTP_403_FORBIDDEN
    ("Access denied to " +:+ PageName_value page_name +:+ " page").

(** [check_page_access(page_name)._check_access] over a role table. *)
Definition check_page_access_with
    (tbl : gmap UserRole (gmap PageName bool))
    (page_name : PageName) (db : Session) (current_user : User.t)
    : Result User.t :=
  let permissions := get_user_permissions_with tbl db current_user in
  if negb (default false (permissions !! PageName_value page_name))
  then inl (access_denied page_name)
  else inr current_user.

Definition check_page_access (page_name : PageName) (db : Session)
    (current_user : User.t) : Result User.t :=
  check_page_access_with role_permissions page_name db current_user.


(** ** Endpoints as store transformers

    A request handler reads and writes the store through the session and
    either returns a value or raises; every CRUD write commits on its own,
    so the store keeps the writes made before an exception. *)

Definition Endpoint (A : Type) : Type := Session → Result A * Session.

Definition ret {A} (a : A) : Endpoint A := λ db, (inr a, db).

Definition raise {A} (e : HTTPException) : Endpoint A := λ db, (inl e, db).

Definition bind {A B} (m : Endpoint A) (k : A → Endpoint B) : Endpoint B :=
  λ db, match m db with
        | (inl e, db') => (inl e, db')
        | (inr a, db') => k a db'
        end.

(** A read of the store. *)
Definition query {A} (q : Session → A) : Endpoint A := λ db, (inr (q db), db).

(** A committed write of the store. *)
Definition commit {A} (w : Session → A * Session) : Endpoint A :=
  λ db, let '(a, db') := w db in (inr a, db').

(** [current_user: User = Depends(dependency)] for a [dependency] that itself
    receives the user [deps.get_current_user] authenticated; a handler that
    declares [Depends(deps.get_current_user)] receives that user as its
    [current_user] argument. *)
Definition Depends (dependency : User.t → Result User.t)
    (current_user : User.t) : Endpoint User.t :=
  λ db, (dependency current_user, db).

Notation "'let*' x := m 'in' k" := (bind m (λ x, k))
  (at level 10, x pattern, m at level 100, k at level 200, only parsing).

(** ** Generic CRUD operations

    [app/crud/base.py] is not among the sources; the operations of [CRUDBase]
    the handlers call are modelled below. *)

(** Modelled from the spec: [CRUDBase.get] on [users], which app/crud/base.py
    would define: the row with primary key [id], absent (NotFound) when the
    referenced entity does not exist. *)
Definition get_user (db : Session) (id : Z) : option User.t :=
  snd <$> list_find (λ u, User.id u = id) (users db).

(** Modelled from the spec: the primary key a new row is given, which the
    autoincrement columns of app/db would assign: above every key in use. *)
Definition next_id (ids : list Z) : Z := 1 + foldr Z.max 0 ids.

(** Modelled from the spec: [CRUDBase.create] on [user_page_access], which
    app/crud/base.py would define: "otherwise insert a new row". *)
Definition create_user_page_access (now : Z) (user_id : Z)
    (page_name : PageName) (has_access : bool) (db : Session)
    : UserPageAccess.t * Session :=
  let db_obj :=
    UserPageAccess.mk (next_id (UserPageAccess.id <$> user_page_access db))
      user_id page_name has_access now None in
  (db_obj,
   mkSession (users db) (user_page_access db ++ [db_obj]) (audit_logs db)).

(** Modelled from the spec: [CRUDBase.update] on the row [db_obj] found at
    position [i] of [user_page_access], which app/crud/base.py would define:
    "update its has_access and updated_at", in place. *)
Definition update_user_page_access_row (now : Z) (i : nat)
    (db_obj : UserPageAccess.t) (has_access : bool) (db : Session)
    : UserPageAccess.t * Session :=
  let db_obj :=
    UserPageAccess.mk (UserPageAccess.id db_obj)
      (UserPageAccess.user_id db_obj) (UserPageAccess.page_name db_obj)
      has_access (UserPageAccess.created_at db_obj) (Some now) in
  (db_obj,
   mkSession (users db) (<[i := db_obj]> (user_page_access db))
     (audit_logs db)).

(** Modelled from the spec: [CRUDBase.create] on [audit_logs], which
    app/crud/base.py would define: "each call inserts a new, distinct entry"
    with "a server-assigned timestamp at write time". *)
Definition create_audit_log (now : Z) (obj_in : AuditLogCreate.t)
    (db : Session) : AuditLog.t * Session :=
  let db_obj :=
    AuditLog.mk (next_id (AuditLog.id <$> audit_logs db))
      (AuditLogCreate.actor_id obj_in) (AuditLogCreate.action obj_in)
      (AuditLogCreate.target obj_in) (AuditLogCreate.target_user_id obj_in)
      now in
  (db_obj,
   mkSession (users db) (user_page_access db) (audit_logs db ++ [db_obj])).

(** Modelled from the spec: [CRUDBase.remove] on [users], which
    app/crud/base.py would define: the user row is deleted, its override rows
    are "deleted when the user is deleted (cascade)", and audit entries, which
    are never deleted by the application, stay. *)
Definition remove_user (id : Z) (db : Session) : option User.t * Session :=
  (get_user db id,
   mkSession (filter (λ u, User.id u ≠ id) (users db))
     (filter (λ o, UserPageAccess.user_id o ≠ id) (user_page_access db))
     (audit_logs db)).


(** ** Override store: [app/crud/user_page_access.py] *)

Definition override_for (user_id : Z) (page_name : PageName)
    (o : UserPageAccess.t) : Prop :=
  UserPageAccess.user_id o = user_id ∧ UserPageAccess.page_name o = page_name.

#[global] Instance override_for_dec user_id page_name o :
  Decision (override_for user_id page_name o).
Proof. unfold override_for. apply _. Defined.

(** [get_by_user_and_page]: [.filter(...).first()], the row together with its
    position in the table. *)
Definition get_by_user_and_page (db : Session) (user_id : Z)
    (page_name : PageName) : option (nat * UserPageAccess.t) :=
  list_find (override_for user_id page_name) (user_page_access db).

(** [set_user_page_access] *)
Definition set_user_page_access (now : Z) (user_id : Z) (page_name : PageName)
    (has_access : bool) (db : Session) : UserPageAccess.t * Session :=
  match get_by_user_and_page db user_id page_name with
  | Some (i, existing) =>
      update_user_page_access_row now i existing has_access db
  | None =>
      create_user_page_access now user_id page_name has_access db
  end.

(** The key of the uniqueness constraint [(user_id, page_name)] of table
    [user_page_access] (migration 001). *)
Definition override_key (o : UserPageAccess.t) : Z * PageName :=
  (UserPageAccess.user_id o, UserPageAccess.page_name o).

Definition unique_overrides (rows : list UserPageAccess.t) : Prop :=
  NoDup (override_key <$> rows).

#[global] Instance unique_overrides_dec rows : Decision (unique_overrides rows).
Proof. unfold unique_overrides. apply _. Defined.

(** The role default of a page, read from the table. *)
Definition RoleDefaultPermission (r : UserRole) (p : PageName) : option bool :=
  role_permissions !! r ≫= (.!! p).

(** ** Audit log reads: [app/crud/audit_log.py] *)

(** [AuditLog.timestamp.desc()] *)
Definition timestamp_desc (a b : AuditLog.t) : Prop :=
  AuditLog.timestamp b ≤ AuditLog.timestamp a.

#[global] Instance timestamp_desc_dec : RelDecision timestamp_desc.
Proof. intros a b. unfold timestamp_desc. apply _. Defined.

(** [.order_by(AuditLog.timestamp.desc())]; the order among rows of equal
    timestamp is the one the sort leaves. *)
Definition order_by_timestamp_desc (rows : list AuditLog.t)
    : list AuditLog.t :=
  merge_sort timestamp_desc rows.

(** The relationships [AuditLog.actor] and [AuditLog.target_user]. *)
Definition actor (db : Session) (log : AuditLog.t) : option User.t :=
  get_user db (AuditLog.actor_id log).

Definition target_user (db : Session) (log : AuditLog.t) : option User.t :=
  AuditLog.target_user_id log ≫= get_user db.

(** [.join(AuditLog.actor).filter(User.role != "admin")]: the inner join keeps
    an entry only with its actor row. *)
Definition actor_role_not_admin (db : Session) (log : AuditLog.t) : Prop :=
  from_option (λ u, UserRole_value (User.role u) ≠ "admin") False
    (actor db log).

#[global] Instance actor_role_not_admin_dec db log :
  Decision (actor_role_not_admin db log).
Proof. unfold actor_role_not_admin. destruct (actor db log); apply _. Defined.

(** [get_recent_logs] *)
Definition get_recent_logs (db : Session) (limit : nat) (user_role : string)
    (user_id : Z) : list AuditLog.t :=
  let query := audit_logs db in
  let query :=
    if decide (user_role = "admin") then query
    else if decide (user_role = "manager") then
      filter (actor_role_not_admin db) query
    else if decide (user_role ∈ ["agent"; "viewer"]) then
      filter (λ log, AuditLog.actor_id log = user_id) query
    else query in
  take limit (order_by_timestamp_desc query).

(** The filter of [get_user_logs]; SQL equality with a NULL
    [target_user_id] is not true. *)
Definition involves (user_id : Z) (log : AuditLog.t) : Prop :=
  AuditLog.actor_id log = user_id ∨ AuditLog.target_user_id log = Some user_id.

#[global] Instance involves_dec user_id log : Decision (involves user_id log).
Proof. unfold involves. apply _. Defined.

(** [get_user_logs] *)
Definition get_user_logs (db : Session) (user_id : Z) (skip limit : nat)
    : list AuditLog.t :=
  take limit
    (drop skip (order_by_timestamp_desc (filter (involves user_id)
                                           (audit_logs db)))).

(** ** Audit read endpoints: [app/api/v1/endpoints/audit_logs.py] *)

(** The dictionary built for one entry in the handlers' loops:
    [log.actor.full_name if log.actor else None], and the same for the
    target. *)
Definition to_dict (db : Session) (log : AuditLog.t) : AuditLogOut.t :=
  AuditLogOut.mk (AuditLog.id log) (AuditLog.actor_id log)
    (AuditLog.action log) (AuditLog.target log) (AuditLog.target_user_id log)
    (AuditLog.timestamp log)
    (User.full_name <$> actor db log)
    (User.full_name <$> target_user db log).

(** [limit: int = Query(default=d, lte=100)]: the value of the query
    parameter, [d] when the request has none.  [fastapi.Query] bounds a
    parameter with [le]; [lte] is not one of its validation keywords, so the
    declaration checks no bound and the value reaches the handler as sent. *)
Definition Query (d : nat) (requested : option nat) : nat :=
  from_option id d requested.


(** The reassignment at the head of [get_user_audit_logs]. *)
Definition resolved_user_id (user_id : Z) (current_user : User.t) : Z :=
  if negb (String.eqb (UserRole_value (User.role current_user)) "admin")
     && negb (Z.eqb (User.id current_user) user_id)
  then User.id current_user
  else user_id.

(** [GET /user/{user_id}] *)
Definition get_user_audit_logs (user_id : Z) (skip : option nat)
    (limit : option nat) (current_user : User.t)
    : Endpoint (list AuditLogOut.t) :=
  let skip := default 0%nat skip in
  let limit := Query 50 limit in
  let user_id := resolved_user_id user_id current_user in
  let* logs := query (λ db, get_user_logs db user_id skip limit) in
  query (λ db, to_dict db <$> logs).


(** ** User management endpoints: [app/api/v1/endpoints/users.py] *)

Definition not_enough_permissions : HTTPException :=
  mkHTTPException HTTP_403_FORBIDDEN "Not enough permissions".

Definition user_not_found : HTTPException :=
  mkHTTPException HTTP_404_NOT_FOUND "User not found".

(** The handlers of the router that manage users (every route but
    [/me/permissions]). *)
Inductive UserManagementOp :=
  | ReadUsers | CreateUser | UpdateUser | ReadUserById | DeleteUser
  | UpdateUserPageAccess.

(** The [current_user] dependency each of them declares. *)
Definition declared_dependency (op : UserManagementOp)
    : User.t → Result User.t :=
  match op with
  | ReadUsers => get_current_admin_user
  | CreateUser => get_current_admin_user
  | UpdateUser => get_current_admin_user
  | ReadUserById => get_current_admin_user
  | DeleteUser => get_current_admin_user
  | UpdateUserPageAccess => get_current_admin_user
  end.

(** A request served by a handler body behind its dependency. *)
Definition serve {A} (op : UserManagementOp) (handler : User.t → Endpoint A)
    (current_user : User.t) : Endpoint A :=
  let* current_user := Depends (declared_dependency op) current_user in
  handler current_user.

(** The dictionary [read_user_by_id] returns. *)
Module UserWithPermissions.
Record t := mk {
  id : Z;
  email : string;
  full_name : string;
  role : UserRole;
  active : bool;
  page_permissions : gmap string bool
}.
End UserWithPermissions.

(** [GET /{user_id}] *)
Definition read_user_by_id (user_id : Z) (current_user : User.t)
    : Endpoint UserWithPermissions.t :=
  let* current_user := Depends get_current_admin_user current_user in
  let* user := query (λ db, get_user db user_id) in
  match user with
  | None => raise user_not_found
  | Some user =>
      let* permissions := query (λ db, get_user_permissions db user) in
      ret (UserWithPermissions.mk (User.id user) (User.email user)
             (User.full_name user) (User.role user) (User.active user)
             permissions)
  end.

(** [DELETE /{user_id}] *)
Definition delete_user (now : Z) (user_id : Z) (current_user : User.t)
    : Endpoint (gmap string string) :=
  let* current_user := Depends get_current_admin_user current_user in
  let* user := query (λ db, get_user db user_id) in
  match user with
  | None => raise user_not_found
  | Some user =>
      if decide (User.id user = User.id current_user)
      then raise (mkHTTPException HTTP_400_BAD_REQUEST
                    "Cannot delete your own account")
      else
        let* _ := commit (remove_user user_id) in
        let audit_data :=
          AuditLogCreate.mk (User.id current_user) "delete_user"
            (Some ("user:" +:+ pretty user_id)) (Some user_id) in
        let* _ := commit (create_audit_log now audit_data) in
        ret {[ "message" := "User deleted successfully" ]}
  end.

(** The entry [update_user_page_access] writes for a change. *)
Definition page_access_audit_data (current_user : User.t) (user_id : Z)
    (page_name : PageName) : AuditLogCreate.t :=
  AuditLogCreate.mk (User.id current_user) "update_page_access"
    (Some ("user:" +:+ pretty user_id +:+ ":page:"
             +:+ PageName_value page_name))
    (Some user_id).

(** [PUT /{user_id}/page-access/{page_name}] *)
Definition update_user_page_access (now : Z) (user_id : Z)
    (page_name : PageName) (has_access : bool) (current_user : User.t)
    : Endpoint (gmap string string) :=
  let* current_user := Depends get_current_admin_user current_user in
  let* user := query (λ db, get_user db user_id) in
  match user with
  | None => raise user_not_found
  | Some user =>
      let* current_permissions := query (λ db, get_user_permissions db user) in
      let current_access :=
        default false (current_permissions !! PageName_value page_name) in
      let* _ :=
        commit (set_user_page_access now user_id page_name has_access) in
      let* _ :=
        if decide (current_access ≠ has_access)
        then
          let* _ :=
            commit (create_audit_log now
                      (page_access_audit_data current_user user_id page_name))
          in ret ()
        else ret () in
      ret {[ "message" :=
               "Page access updated for " +:+ PageName_value page_name ]}
  end.

(** ** The visibility rules in the specification's words

    These restate section 4.5 of the specification; the theorems compare the
    queries above with them. *)

(** "admin: no filter; manager: the entries whose actor's role is not admin;
    agent, viewer: only entries where actor_id == requester.id".  An actor
    has a role when its row exists, which the foreign key of [actor_id]
    asks for. *)
Definition visible_to (db : Session) (requester : User.t) (log : AuditLog.t)
    : Prop :=
  match User.role requester with
  | ADMIN => True
  | MANAGER => ∃ u, actor db log = Some u ∧ User.role u ≠ ADMIN
  | AGENT | VIEWER => AuditLog.actor_id log = User.id requester
  end.

#[global] Instance visible_to_dec db requester log :
  Decision (visible_to db requester log).
Proof.
  unfold visible_to. destruct (User.role requester); try apply _.
  destruct (actor db log) as [u|].
  - destruct (decide (User.role u = ADMIN)) as [Hadm|Hadm].
    + right. intros (u' & [= <-] & Hne). by apply Hne.
    + left. by exists u.
  - right. by intros (u' & [=] & _).
Defined.

(** "if requester is not admin and target_user_id != requester.id, silently
    substitute requester.id for target_user_id". *)
Definition listForUser_target (requester : User.t) (target_user_id : Z) : Z :=
  match User.role requester with
  | ADMIN => target_user_id
  | _ => User.id requester
  end.

(** ** Sample stores *)

Definition sample_user (i : Z) (r : UserRole) : User.t :=
  User.mk i ("user" +:+ pretty i +:+ "@example.com") ("User " +:+ pretty i)
    "x" r true.

Definition admin1 : User.t := sample_user 1 ADMIN.
Definition manager2 : User.t := sample_user 2 MANAGER.
Definition agent3 : User.t := sample_user 3 AGENT.
Definition viewer4 : User.t := sample_user 4 VIEWER.

Definition sample_logs : list AuditLog.t :=
  [ AuditLog.mk 1 1 "login" None None 10;
    AuditLog.mk 2 2 "login" None None 20;
    AuditLog.mk 3 4 "login" None None 30;
    AuditLog.mk 4 1 "update_page_access" (Some "user:4:page:candidates")
      (Some 4) 40;
    AuditLog.mk 5 3 "logout" None None 50 ].

Definition sample_db : Session :=
  mkSession [admin1; manager2; agent3; viewer4]
    [ UserPageAccess.mk 1 4 CANDIDATES true 5 None;
      UserPageAccess.mk 2 3 CALLS false 6 None ]
    sample_logs.

(** The sample store without override rows. *)
Definition plain_db : Session :=
  mkSession [admin1; manager2; agent3; viewer4] [] sample_logs.



(** ** Identity of a request: [deps.get_current_user] *)

Definition HTTP_401_UNAUTHORIZED : Z := 401.
Definition HTTP_500_INTERNAL_SERVER_ERROR : Z := 500.

Definition could_not_validate_credentials : HTTPException :=
  mkHTTPException HTTP_401_UNAUTHORIZED "Could not validate credentials".

Definition inactive_user : HTTPException :=
  mkHTTPException HTTP_400_BAD_REQUEST "Inactive user".

(** [CRUDUser.is_active] *)
Definition is_active (user : User.t) : bool := User.active user.

(** [get_current_user].  [app/core/security.py] is not among the sources:
    [verified] stands for [verify_token(token)], the subject of the bearer
    token read as [int(user_id)], or [None] for a token that does not
    verify.  (The [WWW-Authenticate] header of the 401 is not kept.) *)
Definition get_current_user (db : Session) (verified : option Z)
    : Result User.t :=
  match verified with
  | None => inl could_not_validate_credentials
  | Some user_id =>
      match get_user db user_id with
      | None => inl user_not_found
      | Some user_instance =>
          if negb (is_active user_instance)
          then inl inactive_user
          else inr user_instance
      end
  end.

(** A dependency that declares [Depends(get_current_user)], resolved from
    the credentials of the request. *)
Definition resolve (dependency : User.t → Result User.t) (db : Session)
    (verified : option Z) : Result User.t :=
  match get_current_user db verified with
  | inl e => inl e
  | inr current_user => dependency current_user
  end.

Definition admin_or_manager_required : HTTPException :=
  mkHTTPException HTTP_403_FORBIDDEN
    "Not enough permissions. Admin or Manager access required.".

(** [get_current_admin_or_manager_user] *)
Definition get_current_admin_or_manager_user (current_user : User.t)
    : Result User.t :=
  if negb (bool_decide (UserRole_value (User.role current_user)
                          ∈ ["admin"; "manager"]))
  then inl admin_or_manager_required
  else inr current_user.


(** ** Users: [app/crud/user.py], [app/api/v1/endpoints/users.py] *)

(** The fields [CRUDUser.create] reads from its [UserCreate] argument. *)
Module UserCreate.
Record t := mk {
  email : string;
  full_name : string;
  password : string;
  role : UserRole;
  active : bool
}.
End UserCreate.

Module CRUDUser.
Section passwords.
(** [app/core/security.py] is not among the sources: the two password
    functions are parameters. *)
Variable get_password_hash : string → string.
Variable verify_password : string → string → bool.

(** [get_by_email]: [.filter(User.email == email).first()] *)
Definition get_by_email (db : Session) (email : string) : option User.t :=
  snd <$> list_find (λ u, User.email u = email) (users db).

(** [create]: the row is added with the hash of the password and receives
    its primary key from the table. *)
Definition create (obj_in : UserCreate.t) (db : Session)
    : User.t * Session :=
  let db_obj :=
    User.mk (next_id (User.id <$> users db))
      (UserCreate.email obj_in) (UserCreate.full_name obj_in)
      (get_password_hash (UserCreate.password obj_in))
      (UserCreate.role obj_in) (UserCreate.active obj_in) in
  (db_obj,
   mkSession (users db ++ [db_obj]) (user_page_access db) (audit_logs db)).

(** [authenticate] *)
Definition authenticate (db : Session) (email password : string)
    : option User.t :=
  match get_by_email db email with
  | None => None
  | Some user =>
      if negb (verify_password password (User.password_hash user))
      then None
      else Some user
  end.
End passwords.
End CRUDUser.

Definition email_already_exists : HTTPException :=
  mkHTTPException HTTP_400_BAD_REQUEST
    "The user with this email already exists.".


(** [POST /] of the users router *)
Definition create_user (get_password_hash : string → string) (now : Z)
    (user_in : UserCreate.t) (current_user : User.t) : Endpoint User.t :=
  let* current_user := Depends get_current_admin_user current_user in
  let* existing_user :=
    query (λ db, CRUDUser.get_by_email db (UserCreate.email user_in)) in
  match existing_user with
  | Some _ => raise email_already_exists
  | None =>
      let* new_user := commit (CRUDUser.create get_password_hash user_in) in
      let audit_data :=
        AuditLogCreate.mk (User.id current_user) "create_user"
          (Some ("user:" +:+ pretty (User.id new_user)))
          (Some (User.id new_user)) in
      let* _ := commit (create_audit_log now audit_data) in
      ret new_user
  end.


(** ** Status counts: [CRUDCandidate.count_by_status],
    [CRUDInterview.count_by_status] *)

(** [class CandidateStatus(str, enum.Enum)] *)
Inductive CandidateStatus :=
  | NEW | SCREENING | INTERVIEWING | OFFER | HIRED | REJECTED.

(** [class InterviewStatus(str, enum.Enum)] *)
Inductive InterviewStatus :=
  | SCHEDULED | IN_PROGRESS | COMPLETED | CANCELLED | NO_SHOW.

Definition CandidateStatus_value (s : CandidateStatus) : string :=
  match s with
  | NEW => "new"
  | SCREENING => "screening"
  | INTERVIEWING => "interviewing"
  | OFFER => "offer"
  | HIRED => "hired"
  | REJECTED => "rejected"
  end.

Definition InterviewStatus_value (s : InterviewStatus) : string :=
  match s with
  | SCHEDULED => "scheduled"
  | IN_PROGRESS => "in_progress"
  | COMPLETED => "completed"
  | CANCELLED => "cancelled"
  | NO_SHOW => "no_show"
  end.

(** The members in definition order, as iterating the enum class gives. *)
Definition all_CandidateStatus : list CandidateStatus :=
  [NEW; SCREENING; INTERVIEWING; OFFER; HIRED; REJECTED].

Definition all_InterviewStatus : list InterviewStatus :=
  [SCHEDULED; IN_PROGRESS; COMPLETED; CANCELLED; NO_SHOW].

#[global] Instance CandidateStatus_eq_dec : EqDecision CandidateStatus.
Proof. solve_decision. Defined.

#[global] Instance InterviewStatus_eq_dec : EqDecision InterviewStatus.
Proof. solve_decision. Defined.

Section count_by_status.
(** The two functions are the same code over their enum; [column] is the
    [status] column of the table, which is nullable in both models. *)
Context {Status : Type} `{!EqDecision Status}.
Variable all_statuses : list Status.
Variable value : Status → string.

(** [db.query(status, func.count(id)).group_by(status).all()]: one row per
    value of the column, NULL included, with the number of rows that have
    it. *)
Definition group_by_status (column : list (option Status))
    : list (option Status * nat) :=
  (λ s, (s, length (filter (λ x, x = s) column))) <$> remove_dups column.

(** One turn of the loop [for status, count in result:
    counts[status.value] = count]; [None] once [status.value] has raised on
    the NULL group. *)
Definition count_step (acc : option (gmap string nat))
    (row : option Status * nat) : option (gmap string nat) :=
  counts ← acc; status ← row.1; Some (<[value status := row.2]> counts).

(** [count_by_status] *)
Definition count_by_status (column : list (option Status))
    : option (gmap string nat) :=
  let result := group_by_status column in
  let counts : gmap string nat :=
    list_to_map ((λ status, (value status, 0%nat)) <$> all_statuses) in
  foldl count_step (Some counts) result.

(** [sum(stats.values())] *)
Definition sum_values (stats : gmap string nat) : nat :=
  sum_list (snd <$> map_to_list stats).
End count_by_status.

(** The dictionary [get_candidate_stats] returns. *)
Record CandidateStats := mkCandidateStats {
  total_candidates : nat;
  by_status : gmap string nat
}.

(** [GET /stats/overview] of the candidates router, over the [status] column
    of [candidates]; an exception the handler does not catch is answered
    with status 500. *)
Definition get_candidate_stats (candidates_status : list (option CandidateStatus))
    (current_user : User.t) : Endpoint CandidateStats :=
  let* current_user :=
    (λ db, (check_page_access CANDIDATES db current_user, db)) in
  match count_by_status all_CandidateStatus CandidateStatus_value
          candidates_status with
  | None =>
      raise (mkHTTPException HTTP_500_INTERNAL_SERVER_ERROR
               "Internal Server Error")
  | Some stats =>
      let total_candidates := sum_values stats in
      ret (mkCandidateStats total_candidates stats)
  end.

(** ** CSRF tokens: [app/middleware/csrf.py] *)

(** The character ['.']. *)
Definition dot : Ascii.ascii := Ascii.ascii_of_nat 46.

(** [c in s] for a character. *)
Fixpoint contains (c : Ascii.ascii) (s : string) : bool :=
  match s with
  | EmptyString => false
  | String a rest => Ascii.eqb a c || contains c rest
  end.

(** [s.rsplit(c, 1)] when [c] occurs in [s]: the parts before and after the
    last occurrence. *)
Fixpoint rsplit1 (c : Ascii.ascii) (s : string)
    : option (string * string) :=
  match s with
  | EmptyString => None
  | String a rest =>
      match rsplit1 c rest with
      | Some (l, r) => Some (String a l, r)
      | None => if Ascii.eqb a c then Some (EmptyString, rest) else None
      end
  end.

(** [str.lower()] on ASCII letters. *)
Definition lower_ascii (a : Ascii.ascii) : Ascii.ascii :=
  let n := Ascii.nat_of_ascii a in
  if (65 <=? n)%nat && (n <=? 90)%nat then Ascii.ascii_of_nat (n + 32) else a.

Fixpoint lower (s : string) : string :=
  match s with
  | EmptyString => EmptyString
  | String a rest => String (lower_ascii a) (lower rest)
  end.

(** What the middleware reads of a [Request]: the method, the headers (keyed
    by lower-case name, looked up without regard to case), the host of the
    client and the id of [request.state.user] when one is set. *)
Module Request.
Record t := mk {
  method : string;
  headers : gmap string string;
  client_host : option string;
  state_user_id : option Z
}.
End Request.

(** [request.headers.get(name)] *)
Definition headers_get (request : Request.t) (name : string)
    : option string :=
  Request.headers request !! lower name.

(** [class CSRFProtection] *)
Module CSRFProtection.
Record t := mk {
  secret_key : string;
  cookie_name : string;
  header_name : string
}.
End CSRFProtection.

(** [init_csrf_protection(secret_key)], the constructor's defaults. *)
Definition init_csrf_protection (secret_key : string) : CSRFProtection.t :=
  CSRFProtection.mk secret_key "csrftoken" "X-CSRFToken".

Definition csrf_not_initialized : HTTPException :=
  mkHTTPException HTTP_500_INTERNAL_SERVER_ERROR
    "CSRF protection not initialized".

Definition csrf_token_missing : HTTPException :=
  mkHTTPException HTTP_403_FORBIDDEN "CSRF token missing".

Definition csrf_token_invalid : HTTPException :=
  mkHTTPException HTTP_403_FORBIDDEN "CSRF token invalid".

Section csrf.
(** [hmac.new(key, message, hashlib.sha256).hexdigest()] and
    [hashlib.md5(message).hexdigest()] are parameters. *)
Variable hmac_sha256_hexdigest : string → string → string.
Variable md5_hexdigest : string → string.

(** [generate_csrf_token]; [random_value] is [secrets.token_urlsafe(32)]. *)
Definition generate_csrf_token (self : CSRFProtection.t)
    (random_value : string) (session_id : string) : string :=
  let message := session_id +:+ ":" +:+ random_value in
  let signature :=
    hmac_sha256_hexdigest (CSRFProtection.secret_key self) message in
  random_value +:+ "." +:+ signature.

(** [verify_csrf_token]; [hmac.compare_digest] answers whether the two
    strings are equal.  (On a signature with a character outside ASCII it
    raises and the [except] answers [False]; a hexadecimal digest is ASCII,
    so the two strings differ then as well.) *)
Definition verify_csrf_token (self : CSRFProtection.t) (token : string)
    (session_id : string) : bool :=
  if String.eqb token "" || negb (contains dot token) then false
  else
    match rsplit1 dot token with
    | None => false
    | Some (random_value, signature) =>
        let message := session_id +:+ ":" +:+ random_value in
        let expected_signature :=
          hmac_sha256_hexdigest (CSRFProtection.secret_key self) message in
        String.eqb signature expected_signature
    end.

(** [get_csrf_token_from_request] *)
Definition get_csrf_token_from_request (self : CSRFProtection.t)
    (request : Request.t) : option string :=
  match headers_get request (CSRFProtection.header_name self) with
  | Some token => if String.eqb token "" then None else Some token
  | None => None
  end.

(** [get_session_id] *)
Definition get_session_id (self : CSRFProtection.t) (request : Request.t)
    : string :=
  match Request.state_user_id request with
  | Some id => pretty id
  | None =>
      let ip := default "unknown" (Request.client_host request) in
      let user_agent := default "unknown" (headers_get request "user-agent") in
      md5_hexdigest (ip +:+ ":" +:+ user_agent)
  end.

(** [require_csrf_token]; [csrf_protection] is the module's global. *)
Definition require_csrf_token (csrf_protection : option CSRFProtection.t)
    (request : Request.t) : Result unit :=
  match csrf_protection with
  | None => inl csrf_not_initialized
  | Some csrf_protection =>
      if bool_decide (Request.method request ∈ ["GET"; "HEAD"; "OPTIONS"])
      then inr ()
      else
        match get_csrf_token_from_request csrf_protection request with
        | None => inl csrf_token_missing
        | Some csrf_token =>
            let session_id := get_session_id csrf_protection request in
            if negb (verify_csrf_token csrf_protection csrf_token session_id)
            then inl csrf_token_invalid
            else inr ()
        end
  end.

(** [get_csrf_token] *)
Definition get_csrf_token (csrf_protection : option CSRFProtection.t)
    (random_value : string) (request : Request.t) : Result string :=
  match csrf_protection with
  | None => inl csrf_not_initialized
  | Some csrf_protection =>
      let session_id := get_session_id csrf_protection request in
      inr (generate_csrf_token csrf_protection random_value session_id)
  end.
End csrf.

(** Stand-ins for the password functions, for the examples. *)
Definition toy_hash (password : string) : string := "h:" +:+ password.

Definition toy_verify (password hash : string) : bool :=
  String.eqb hash ("h:" +:+ password).

Definition sample_user_in : UserCreate.t :=
  UserCreate.mk "new@example.com" "New User" "s3cret" AGENT true.

(** Stand-ins for the digests, for the examples. *)
Fixpoint toy_digest (s : string) : string :=
  match s with
  | EmptyString => "0"
  | String a rest =>
      String (if Nat.even (Ascii.nat_of_ascii a)
              then Ascii.ascii_of_nat 97 else Ascii.ascii_of_nat 98)
        (toy_digest rest)
  end.

Definition toy_hmac (key message : string) : string :=
  toy_digest (key +:+ message).

Definition toy_md5 (message : string) : string := toy_digest message.

Definition sample_request : Request.t :=
  Request.mk "GET" {[ "user-agent" := "curl/8.0" ]} (Some "10.0.0.7") None.

(** ** Client address: [app/middleware/rate_limit.py] *)

(** [str.isspace()] on the characters a header value can hold (one byte
    each): tab to carriage return, the separators 28 to 31, space, and the
    Latin-1 next-line and no-break space. *)
Definition is_space (a : Ascii.ascii) : bool :=
  let n := Ascii.nat_of_ascii a in
  ((9 <=? n)%nat && (n <=? 13)%nat) || ((28 <=? n)%nat && (n <=? 32)%nat)
  || (n =? 133)%nat || (n =? 160)%nat.

Fixpoint lstrip (s : string) : string :=
  match s with
  | EmptyString => EmptyString
  | String a rest => if is_space a then lstrip rest else s
  end.

Fixpoint rstrip (s : string) : string :=
  match s with
  | EmptyString => EmptyString
  | String a rest =>
      match rstrip rest with
      | EmptyString => if is_space a then EmptyString else String a EmptyString
      | rest' => String a rest'
      end
  end.

(** [s.strip()] *)
Definition strip (s : string) : string := rstrip (lstrip s).

(** A string that does not begin with white space. *)
Definition no_leading_space (s : string) : Prop :=
  match s with
  | EmptyString => True
  | String a _ => is_space a = false
  end.

(** The character [',']. *)
Definition comma : Ascii.ascii := Ascii.ascii_of_nat 44.

(** [s.split(c)[0]] *)
Fixpoint before_first (c : Ascii.ascii) (s : string) : string :=
  match s with
  | EmptyString => EmptyString
  | String a rest =>
      if Ascii.eqb a c then EmptyString else String a (before_first c rest)
  end.

(** The truth value of [headers.get(name)]: a header that is present and
    not empty. *)
Definition header_set (value : option string) : bool :=
  match value with
  | Some v => negb (String.eqb v "")
  | None => false
  end.

(** [get_client_ip]; [remote_address] is what slowapi's
    [get_remote_address(request)] returns. *)
Definition get_client_ip (request : Request.t) (remote_address : string)
    : string :=
  let forwarded := headers_get request "X-Forwarded-For" in
  if header_set forwarded
  then strip (before_first comma (default "" forwarded))
  else
    let real_ip := headers_get request "X-Real-IP" in
    if header_set real_ip then default "" real_ip else remote_address.

(** ** Security headers: [app/middleware/security_headers.py] *)

(** The settings of [SecuritySettings] the middleware reads. *)
Module SecuritySettings.
Record t := mk {
  security_headers_enabled : bool;
  content_security_policy : string;
  session_cookie_secure : bool;
  hsts_max_age : Z
}.
End SecuritySettings.

Definition permissions_policy : string :=
  "geolocation=(), microphone=(), camera=(), "
  +:+ "payment=(), usb=(), magnetometer=(), gyroscope=(), "
  +:+ "accelerometer=(), ambient-light-sensor=(), autoplay=(), "
  +:+ "encrypted-media=(), fullscreen=(self), picture-in-picture=()".

(** [_add_security_headers] on the headers of the response, keyed by
    lower-case name as in [MutableHeaders]. *)
Definition _add_security_headers (security_settings : SecuritySettings.t)
    (headers : gmap string string) : gmap string string :=
  let headers :=
    if negb (String.eqb
               (SecuritySettings.content_security_policy security_settings) "")
    then <[lower "Content-Security-Policy" :=
             SecuritySettings.content_security_policy security_settings]>
           headers
    else headers in
  let headers :=
    if SecuritySettings.session_cookie_secure security_settings
    then <[lower "Strict-Transport-Security" :=
             "max-age="
             +:+ pretty (SecuritySettings.hsts_max_age security_settings)
             +:+ "; includeSubDomains"]> headers
    else headers in
  let headers := <[lower "X-Content-Type-Options" := "nosniff"]> headers in
  let headers := <[lower "X-Frame-Options" := "DENY"]> headers in
  let headers := <[lower "X-XSS-Protection" := "1; mode=block"]> headers in
  let headers :=
    <[lower "Referrer-Policy" := "strict-origin-when-cross-origin"]> headers in
  let headers := <[lower "Permissions-Policy" := permissions_policy]> headers in
  if bool_decide (is_Some (headers !! lower "Server"))
  then delete (lower "Server") headers
  else headers.

(** The value [_add_security_headers] gives the HSTS header. *)
Definition hsts_value (security_settings : SecuritySettings.t) : string :=
  "max-age=" +:+ pretty (SecuritySettings.hsts_max_age security_settings)
  +:+ "; includeSubDomains".

(** [SecurityHeadersMiddleware.dispatch], on the headers of the response
    [call_next] returned. *)
Definition dispatch (security_settings : SecuritySettings.t)
    (headers : gmap string string) : gmap string string :=
  if negb (SecuritySettings.security_headers_enabled security_settings)
  then headers
  else _add_security_headers security_settings headers.

(** The keys the middleware manages. *)
Definition managed_headers : list string :=
  lower <$> [ "Content-Security-Policy"; "Strict-Transport-Security";
              "X-Content-Type-Options"; "X-Frame-Options";
              "X-XSS-Protection"; "Referrer-Policy"; "Permissions-Policy";
              "Server" ].

(** The defaults of [class SecuritySettings], as far as the middleware reads
    them. *)
Definition development_security_settings : SecuritySettings.t :=
  SecuritySettings.mk true
    ("default-src 'self'; script-src 'self' 'unsafe-inline'; "
     +:+ "style-src 'self' 'unsafe-inline'; img-src 'self' data: https:; "
     +:+ "font-src 'self'; connect-src 'self'; frame-ancestors 'none';")
    false 31536000.

(** * Properties *)

(** ** The resolver: overrides over role defaults *)

Section resolver.
Implicit Types (m : gmap PageName bool) (l : list UserPageAccess.t).
Implicit Types (o : UserPageAccess.t) (p : PageName).

Lemma apply_overrides_snoc m l o :
  apply_overrides m (l ++ [o])
  = <[UserPageAccess.page_name o := UserPageAccess.has_access o]>
      (apply_overrides m l).
Proof. unfold apply_overrides. by rewrite foldl_app. Qed.

(** A page no override names keeps the value it had. *)
Lemma apply_overrides_untouched m l p :
  (∀ o, o ∈ l → UserPageAccess.page_name o ≠ p) →
  apply_overrides m l !! p = m !! p.
Proof.
  induction l as [|o l IH] using rev_ind; intros Hl; [done|].
  rewrite apply_overrides_snoc, lookup_insert_ne.
  - apply IH. intros o' Ho'. apply Hl. set_solver.
  - apply Hl. set_solver.
Qed.

(** With one override per page, the override's value is the result. *)
Lemma apply_overrides_hit m l o :
  NoDup (UserPageAccess.page_name <$> l) → o ∈ l →
  apply_overrides m l !! UserPageAccess.page_name o
  = Some (UserPageAccess.has_access o).
Proof.
  revert m. induction l as [|o' l IH]; intros m Hnd Ho.
  { by apply elem_of_nil in Ho. }
  rewrite fmap_cons in Hnd. apply NoDup_cons in Hnd as [Hfresh Hnd].
  apply elem_of_cons in Ho as [->|Ho].
  - change (apply_overrides m (o' :: l)) with
      (apply_overrides
         (<[UserPageAccess.page_name o' := UserPageAccess.has_access o']> m) l).
    rewrite apply_overrides_untouched; [by rewrite lookup_insert_eq|].
    intros o Ho Heq. apply Hfresh. rewrite <- Heq.
    by apply list_elem_of_fmap_2.
  - by apply IH.
Qed.

Lemma apply_overrides_is_Some m l p :
  is_Some (m !! p) → is_Some (apply_overrides m l !! p).
Proof.
  induction l as [|o l IH] using rev_ind; intros Hm; [done|].
  rewrite apply_overrides_snoc.
  destruct (decide (UserPageAccess.page_name o = p)) as [->|Hne].
  - rewrite lookup_insert_eq. eauto.
  - rewrite lookup_insert_ne by done. auto.
Qed.

Lemma elem_of_overrides_of db uid o :
  o ∈ overrides_of db uid
  ↔ UserPageAccess.user_id o = uid ∧ o ∈ user_page_access db.
Proof.
  unfold overrides_of.
  apply (list_elem_of_filter (λ o, UserPageAccess.user_id o = uid)).
Qed.

(** The table-wide uniqueness constraint gives one row per page among the
    rows of one user. *)
Lemma unique_overrides_pages rows uid :
  unique_overrides rows →
  NoDup (UserPageAccess.page_name
           <$> filter (λ o, UserPageAccess.user_id o = uid) rows).
Proof.
  unfold unique_overrides. induction rows as [|o rows IH]; intros Hnd.
  { constructor. }
  rewrite fmap_cons in Hnd. apply NoDup_cons in Hnd as [Hfresh Hnd].
  rewrite filter_cons. case_decide as Huid; [|by apply IH].
  rewrite fmap_cons. apply NoDup_cons. split; [|by apply IH].
  intros Hin. apply Hfresh.
  apply list_elem_of_fmap in Hin as (o' & Hpage & Ho').
  apply list_elem_of_filter in Ho' as [Huid' Ho'].
  apply list_elem_of_fmap. exists o'. split; [|done].
  unfold override_key. by rewrite Hpage, Huid, Huid'.
Qed.

Lemma RoleDefaultPermission_total (r : UserRole) p :
  is_Some (RoleDefaultPermission r p).
Proof. destruct r, p; vm_compute; eauto. Qed.

Lemma role_permissions_lookup (r : UserRole) :
  ∃ m, role_permissions !! r = Some m ∧ ∀ p, m !! p = RoleDefaultPermission r p.
Proof.
  destruct (role_permissions !! r) as [m|] eqn:Hr.
  - exists m. split; [done|]. intros p. unfold RoleDefaultPermission.
    by rewrite Hr.
  - by destruct r; vm_compute in Hr.
Qed.

Lemma get_user_permissions_with_lookup tbl db (user : User.t) p :
  get_user_permissions_with tbl db user !! PageName_value p
  = apply_overrides (default ∅ (tbl !! User.role user))
      (overrides_of db (User.id user)) !! p.
Proof. unfold get_user_permissions_with. cbn zeta. apply lookup_kmap, _. Qed.

(** Only page values are keys of the resolved mapping. *)
Lemma get_user_permissions_with_keys tbl db (user : User.t) (k : string) :
  is_Some (get_user_permissions_with tbl db user !! k) →
  ∃ p, k = PageName_value p.
Proof.
  unfold get_user_permissions_with. cbn zeta.
  rewrite lookup_kmap_is_Some by apply _. intros (p & -> & _). by exists p.
Qed.
End resolver.

(** C1: with the store's one-row-per-(user, page) constraint, the resolved
    mapping gives a page the [has_access] of the user's override row for it
    when there is one, whichever way it differs from the role default, and
    the role default of [(user.role, page)] when there is none; every one of
    the six pages has an entry, overrides or not, and no other key has. *)
Theorem get_user_permissions_override_else_role_default
    (db : Session) (user : User.t) (page : PageName) :
  unique_overrides (user_page_access db) →
  (∀ o, o ∈ user_page_access db →
        UserPageAccess.user_id o = User.id user →
        UserPageAccess.page_name o = page →
        get_user_permissions db user !! PageName_value page
        = Some (UserPageAccess.has_access o))
  ∧ ((∀ o, o ∈ user_page_access db →
           UserPageAccess.user_id o = User.id user →
           UserPageAccess.page_name o ≠ page) →
     get_user_permissions db user !! PageName_value page
     = RoleDefaultPermission (User.role user) page)
  ∧ is_Some (RoleDefaultPermission (User.role user) page)
  ∧ is_Some (get_user_permissions db user !! PageName_value page)
  ∧ (∀ k, is_Some (get_user_permissions db user !! k) ↔
          k ∈ PageName_value <$> all_pages).
Proof.
  intros Huniq. unfold get_user_permissions.
  destruct (role_permissions_lookup (User.role user)) as (m & Hm & Hdef).
  assert (Hsome : is_Some (get_user_permissions_with role_permissions db user
                             !! PageName_value page)).
  { rewrite get_user_permissions_with_lookup, Hm. simpl.
    apply apply_overrides_is_Some. rewrite Hdef.
    apply RoleDefaultPermission_total. }
  split; [|split; [|split; [|split]]].
  - intros o Ho Huid <-. rewrite get_user_permissions_with_lookup.
    apply apply_overrides_hit.
    + by apply unique_overrides_pages.
    + by apply elem_of_overrides_of.
  - intros Hnone. rewrite get_user_permissions_with_lookup, Hm. simpl.
    rewrite apply_overrides_untouched; [apply Hdef|].
    intros o Ho. apply elem_of_overrides_of in Ho as [Huid Ho]. by apply Hnone.
  - apply RoleDefaultPermission_total.
  - exact Hsome.
  - intros k. split.
    + intros Hk. apply get_user_permissions_with_keys in Hk as [p ->].
      apply list_elem_of_fmap_2. destruct p; set_solver.
    + intros Hk. apply list_elem_of_fmap in Hk as (p & -> & _).
      rewrite get_user_permissions_with_lookup, Hm. simpl.
      apply apply_overrides_is_Some. rewrite Hdef.
      apply RoleDefaultPermission_total.
Qed.

(** On the sample store the viewer holds a granting override for candidates:
    the resolved value is the override's, against the viewer default. *)
Lemma get_user_permissions_override_else_role_default_witness :
  unique_overrides (user_page_access sample_db)
  ∧ RoleDefaultPermission VIEWER CANDIDATES = Some false
  ∧ get_user_permissions sample_db viewer4 !! "candidates" = Some true
  ∧ get_user_permissions sample_db viewer4 !! "calls" = Some false.
Proof.
  assert (Huniq : unique_overrides (user_page_access sample_db)).
  { apply (bool_decide_unpack _). vm_compute. exact I. }
  destruct (get_user_permissions_override_else_role_default
              sample_db viewer4 CANDIDATES Huniq) as (Hover & _).
  destruct (get_user_permissions_override_else_role_default
              sample_db viewer4 CALLS Huniq) as (_ & Hdef & _).
  split; [exact Huniq|]. split; [reflexivity|]. split.
  - apply (Hover (UserPageAccess.mk 1 4 CANDIDATES true 5 None));
      [apply list_elem_of_here|reflexivity|reflexivity].
  - transitivity (RoleDefaultPermission (User.role viewer4) CALLS);
      [apply Hdef|reflexivity].
    intros o Ho Huid. cbn in Ho.
    apply elem_of_cons in Ho as [->|Ho]; [discriminate|].
    apply elem_of_cons in Ho as [->|Ho]; [discriminate Huid|].
    by apply elem_of_nil in Ho.
Defined.

(** The scenario of the specification: a viewer without overrides has no
    access to candidates and gains it with a granting override; an agent, who
    has calls by default, loses it with a revoking override and keeps
    interviews. *)
Example resolver_scenario :
  get_user_permissions plain_db viewer4 !! "candidates" = Some false
  ∧ get_user_permissions sample_db viewer4 !! "candidates" = Some true
  ∧ get_user_permissions plain_db agent3 !! "calls" = Some true
  ∧ get_user_permissions sample_db agent3 !! "calls" = Some false
  ∧ get_user_permissions sample_db agent3 !! "interviews" = Some true.
Proof. vm_compute. repeat split; reflexivity. Qed.

(** ** The page-access gate *)


Lemma check_page_access_with_spec tbl page db (current_user : User.t) :
  check_page_access_with tbl page db current_user
  = if decide (get_user_permissions_with tbl db current_user
                 !! PageName_value page = Some true)
    then inr current_user
    else inl (access_denied page).
Proof.
  unfold check_page_access_with. cbn zeta.
  destruct (get_user_permissions_with tbl db current_user
              !! PageName_value page) as [[]|];
    case_decide; simpl; congruence.
Qed.



(** ** The role gate of the user management endpoints *)

Lemma get_current_admin_user_spec (current_user : User.t) :
  get_current_admin_user current_user
  = if decide (User.role current_user = ADMIN)
    then inr current_user
    else inl not_enough_permissions.
Proof.
  unfold get_current_admin_user.
  destruct current_user as [i e n h [] a]; reflexivity.
Qed.

Lemma declared_dependency_spec (op : UserManagementOp) :
  declared_dependency op = get_current_admin_user.
Proof. by destruct op. Qed.

Lemma serve_spec {A} (op : UserManagementOp) (handler : User.t → Endpoint A)
    (current_user : User.t) (db : Session) :
  serve op handler current_user db
  = if decide (User.role current_user = ADMIN)
    then handler current_user db
    else (inl not_enough_permissions, db).
Proof.
  unfold serve, bind, Depends.
  rewrite declared_dependency_spec, get_current_admin_user_spec.
  by case_decide.
Qed.

Section handlers_behind_the_gate.
Variables (current_user : User.t) (db : Session).

Lemma update_user_page_access_forbidden now user_id page_name has_access :
  (update_user_page_access now user_id page_name has_access current_user db).1
  = inl not_enough_permissions
  ↔ User.role current_user ≠ ADMIN.
Proof.
  unfold update_user_page_access, bind, Depends, query, commit, raise, ret.
  rewrite get_current_admin_user_spec. case_decide as Hrole.
  - split; [|done]. intros Hres. exfalso. revert Hres.
    destruct (get_user db user_id) as [user|]; [|discriminate].
    destruct (set_user_page_access _ _ _ _ db) as [row db1].
    case_decide; [|discriminate].
    destruct (create_audit_log _ _ db1). discriminate.
  - done.
Qed.

Lemma delete_user_forbidden now user_id :
  (delete_user now user_id current_user db).1 = inl not_enough_permissions
  ↔ User.role current_user ≠ ADMIN.
Proof.
  unfold delete_user, bind, Depends, query, commit, raise, ret.
  rewrite get_current_admin_user_spec. case_decide as Hrole.
  - split; [|done]. intros Hres. exfalso. revert Hres.
    destruct (get_user db user_id) as [user|]; [|discriminate].
    case_decide; [discriminate|]. simpl. discriminate.
  - done.
Qed.

Lemma read_user_by_id_forbidden user_id :
  (read_user_by_id user_id current_user db).1 = inl not_enough_permissions
  ↔ User.role current_user ≠ ADMIN.
Proof.
  unfold read_user_by_id, bind, Depends, query, raise, ret.
  rewrite get_current_admin_user_spec. case_decide as Hrole.
  - split; [|done]. intros Hres. exfalso. revert Hres.
    destruct (get_user db user_id) as [user|]; discriminate.
  - done.
Qed.
End handlers_behind_the_gate.

(** C3: each user management operation passes its gate exactly when the
    requester's role is admin: behind the gate the handler body runs for an
    admin and the request ends in the 403 "Not enough permissions" for anyone
    else, whatever the store holds.  Writing an override row for the
    requester's user_management page, granting or revoking, leaves the gate's
    answer as it was.  The handlers modelled in full (read one user, delete a
    user, change a user's page access) return that 403 exactly for a
    non-admin requester. *)
Theorem user_management_gate_is_admin_role
    (op : UserManagementOp) (current_user : User.t) (db : Session) :
  (declared_dependency op current_user = inr current_user
   ↔ User.role current_user = ADMIN)
  ∧ (declared_dependency op current_user = inl not_enough_permissions
     ↔ User.role current_user ≠ ADMIN)
  ∧ (∀ A (handler : User.t → Endpoint A),
       serve op handler current_user db
       = if decide (User.role current_user = ADMIN)
         then handler current_user db
         else (inl not_enough_permissions, db))
  ∧ (∀ now has_access,
       let db' := (set_user_page_access now (User.id current_user)
                     USER_MANAGEMENT has_access db).2 in
       (Depends (declared_dependency op) current_user db').1
       = (Depends (declared_dependency op) current_user db).1)
  ∧ (∀ now user_id page_name has_access,
       (update_user_page_access now user_id page_name has_access
          current_user db).1 = inl not_enough_permissions
       ↔ User.role current_user ≠ ADMIN)
  ∧ (∀ now user_id,
       (delete_user now user_id current_user db).1
       = inl not_enough_permissions
       ↔ User.role current_user ≠ ADMIN)
  ∧ (∀ user_id,
       (read_user_by_id user_id current_user db).1
       = inl not_enough_permissions
       ↔ User.role current_user ≠ ADMIN).
Proof.
  rewrite declared_dependency_spec, get_current_admin_user_spec.
  split; [|split; [|split; [|split; [|split; [|split]]]]].
  - case_decide; split; congruence.
  - case_decide; split; congruence.
  - intros A handler. apply serve_spec.
  - reflexivity.
  - intros. apply update_user_page_access_forbidden.
  - intros. apply delete_user_forbidden.
  - intros. apply read_user_by_id_forbidden.
Qed.

(** A manager holding a granting override for user_management passes the
    page-access gate of that page and is still refused by the role gate. *)
Example manager_override_does_not_open_user_management :
  let db := (set_user_page_access 60 2 USER_MANAGEMENT true sample_db).2 in
  get_user_permissions db manager2 !! "user_management" = Some true
  ∧ check_page_access USER_MANAGEMENT db manager2 = inr manager2
  ∧ (update_user_page_access 61 4 CALLS true manager2 db).1
    = inl not_enough_permissions.
Proof. vm_compute. auto. Qed.

(** An admin holding a revoking override for user_management is refused by
    the page-access gate of that page and still passes the role gate. *)
Example admin_override_does_not_close_user_management :
  let db := (set_user_page_access 60 1 USER_MANAGEMENT false sample_db).2 in
  get_user_permissions db admin1 !! "user_management" = Some false
  ∧ check_page_access USER_MANAGEMENT db admin1
    = inl (access_denied USER_MANAGEMENT)
  ∧ (read_user_by_id 4 admin1 db).1
    = inr (UserWithPermissions.mk 4 "user4@example.com" "User 4" VIEWER true
             (get_user_permissions db viewer4)).
Proof. vm_compute. auto. Qed.

(** ** The audit read path *)

Section audit_reads.
Implicit Types (db : Session) (log : AuditLog.t) (rows : list AuditLog.t).

#[local] Instance timestamp_desc_total : Total timestamp_desc.
Proof. intros a b. unfold timestamp_desc. lia. Qed.

#[local] Instance timestamp_desc_trans : Transitive timestamp_desc.
Proof. intros a b c. unfold timestamp_desc. lia. Qed.

Lemma order_by_timestamp_desc_perm rows :
  order_by_timestamp_desc rows ≡ₚ rows.
Proof. apply merge_sort_Permutation. Qed.

Lemma order_by_timestamp_desc_sorted rows :
  StronglySorted timestamp_desc (order_by_timestamp_desc rows).
Proof. apply StronglySorted_merge_sort; apply _. Qed.

Lemma elem_of_order_by_timestamp_desc rows log :
  log ∈ order_by_timestamp_desc rows ↔ log ∈ rows.
Proof. by rewrite order_by_timestamp_desc_perm. Qed.

(** A page [skip .. skip+limit) of a sorted listing is sorted. *)
Lemma StronglySorted_page rows (skip limit : nat) :
  StronglySorted timestamp_desc rows →
  StronglySorted timestamp_desc (take limit (drop skip rows)).
Proof.
  intros Hs.
  assert (Hd : StronglySorted timestamp_desc (drop skip rows)).
  { rewrite <- (take_drop skip rows) in Hs.
    by apply StronglySorted_app_1_r in Hs. }
  rewrite <- (take_drop limit (drop skip rows)) in Hd.
  by apply StronglySorted_app_1_l in Hd.
Qed.

Lemma filter_all {A} (P : A → Prop) `{!∀ x, Decision (P x)} (l : list A) :
  (∀ x, P x) → filter P l = l.
Proof.
  intros HP. induction l as [|x l IH]; [done|].
  by rewrite filter_cons_True, IH.
Qed.

Lemma UserRole_value_admin (r : UserRole) :
  UserRole_value r = "admin" ↔ r = ADMIN.
Proof. destruct r; split; (done || discriminate). Qed.

(** The query of [get_recent_logs] selects the entries the specification's
    visibility rule names. *)
Lemma get_recent_logs_visible db (limit : nat) (requester : User.t) :
  get_recent_logs db limit (UserRole_value (User.role requester))
    (User.id requester)
  = take limit (order_by_timestamp_desc
                  (filter (visible_to db requester) (audit_logs db))).
Proof.
  unfold get_recent_logs. cbn zeta. do 2 f_equal.
  destruct requester as [i e n h r a]. destruct r; simpl.
  - symmetry. apply filter_all. intros log. by unfold visible_to.
  - apply list_filter_iff. intros log.
    unfold actor_role_not_admin, visible_to. simpl.
    destruct (actor db log) as [u|]; simpl.
    + rewrite UserRole_value_admin. split; [by exists u|].
      by intros (u' & [= <-] & Hne).
    + split; [done|]. by intros (u' & [=] & _).
  - apply list_filter_iff. intros log. by unfold visible_to.
  - apply list_filter_iff. intros log. by unfold visible_to.
Qed.


Lemma get_user_audit_logs_spec (user_id : Z) (skip limit : option nat)
    (requester : User.t) db :
  get_user_audit_logs user_id skip limit requester db
  = (inr (to_dict db
            <$> get_user_logs db (resolved_user_id user_id requester)
                  (default 0%nat skip) (Query 50 limit)),
     db).
Proof. reflexivity. Qed.

Lemma elem_of_get_user_logs db (user_id : Z) (skip limit : nat) log :
  log ∈ get_user_logs db user_id skip limit →
  log ∈ audit_logs db ∧ involves user_id log.
Proof.
  unfold get_user_logs. intros Hin.
  apply subseteq_take, subseteq_drop in Hin.
  rewrite elem_of_order_by_timestamp_desc in Hin.
  apply list_elem_of_filter in Hin. tauto.
Qed.

Lemma elem_of_get_recent_logs db (limit : nat) (requester : User.t) log :
  log ∈ get_recent_logs db limit (UserRole_value (User.role requester))
          (User.id requester) →
  log ∈ audit_logs db ∧ visible_to db requester log.
Proof.
  rewrite get_recent_logs_visible. intros Hin.
  apply subseteq_take in Hin.
  rewrite elem_of_order_by_timestamp_desc in Hin.
  apply list_elem_of_filter in Hin. tauto.
Qed.

Lemma resolved_user_id_spec (user_id : Z) (requester : User.t) :
  resolved_user_id user_id requester = listForUser_target requester user_id.
Proof.
  unfold resolved_user_id, listForUser_target.
  destruct requester as [i e n h r a]. simpl.
  destruct (Z.eqb_spec i user_id) as [->|Hne]; destruct r; reflexivity.
Qed.
End audit_reads.

(** C4: for every store and requester, [get_recent_logs] returns the first
    [limit] entries, most recent first, of the entries the requester may see:
    every entry for an admin, the entries whose actor has a role other than
    admin for a manager (every entry but the admins', where each entry's
    actor row exists), the entries whose [actor_id] is the requester's id
    for an agent or a viewer.  The filter comes before the limit: the result
    holds [min limit (number of visible entries)] entries, all of them
    visible, and is the whole visible set when that fits the limit. *)
Theorem get_recent_logs_role_scoped
    (db : Session) (limit : nat) (requester : User.t) :
  let out := get_recent_logs db limit (UserRole_value (User.role requester))
               (User.id requester) in
  let visible := filter (visible_to db requester) (audit_logs db) in
  out = take limit (order_by_timestamp_desc visible)
  ∧ (User.role requester = ADMIN → visible = audit_logs db)
  ∧ (User.role requester = MANAGER →
     ∀ log, log ∈ visible ↔
            log ∈ audit_logs db
            ∧ ∃ u, actor db log = Some u ∧ User.role u ≠ ADMIN)
  ∧ (User.role requester = MANAGER →
     ∀ log, log ∈ audit_logs db → is_Some (actor db log) →
            (log ∈ visible ↔
             ¬ ∃ u, actor db log = Some u ∧ User.role u = ADMIN))
  ∧ (User.role requester = AGENT ∨ User.role requester = VIEWER →
     ∀ log, log ∈ visible ↔
            log ∈ audit_logs db ∧ AuditLog.actor_id log = User.id requester)
  ∧ (∀ log, log ∈ out → log ∈ visible)
  ∧ length out = (limit `min` length visible)%nat
  ∧ ((length visible ≤ limit)%nat → out ≡ₚ visible)
  ∧ StronglySorted timestamp_desc out.
Proof.
  intros out visible. subst out. rewrite get_recent_logs_visible.
  fold visible.
  split; [reflexivity|].
  split; [|split; [|split; [|split; [|split; [|split; [|split]]]]]].
  - intros Hrole. subst visible. apply filter_all. intros log.
    unfold visible_to. by rewrite Hrole.
  - intros Hrole log. subst visible. rewrite list_elem_of_filter.
    unfold visible_to. rewrite Hrole. tauto.
  - intros Hrole log Hlog [u Hu]. subst visible. rewrite list_elem_of_filter.
    unfold visible_to. rewrite Hrole, Hu. split.
    + intros [(u1 & [= <-] & Hne) _] (u2 & [= <-] & Heq). by apply Hne.
    + intros Hnot. split; [|done]. exists u. split; [done|].
      intros Heq. apply Hnot. by exists u.
  - intros Hrole log. subst visible. rewrite list_elem_of_filter.
    unfold visible_to. destruct Hrole as [-> | ->]; tauto.
  - intros log Hin. apply subseteq_take in Hin.
    by rewrite elem_of_order_by_timestamp_desc in Hin.
  - by rewrite length_take, order_by_timestamp_desc_perm.
  - intros Hfit. rewrite take_ge.
    + apply order_by_timestamp_desc_perm.
    + by rewrite order_by_timestamp_desc_perm.
  - rewrite <- (drop_0 (order_by_timestamp_desc visible)).
    apply StronglySorted_page, order_by_timestamp_desc_sorted.
Qed.

(** On the sample store a manager asking for two entries gets the two latest
    entries not authored by the admin, and a viewer gets the viewer's own entry. *)
Lemma get_recent_logs_role_scoped_witness :
  User.role manager2 = MANAGER
  ∧ (length (filter (visible_to sample_db viewer4) (audit_logs sample_db))
     ≤ 10)%nat
  ∧ AuditLog.id <$> get_recent_logs sample_db 2 "manager" 2 = [5; 3]
  ∧ get_recent_logs sample_db 10 "viewer" 4
    ≡ₚ filter (visible_to sample_db viewer4) (audit_logs sample_db).
Proof.
  assert (Hfit : (length (filter (visible_to sample_db viewer4)
                            (audit_logs sample_db)) ≤ 10)%nat)
    by (vm_compute; lia).
  split; [reflexivity|]. split; [exact Hfit|]. split; [reflexivity|].
  destruct (get_recent_logs_role_scoped sample_db 10 viewer4)
    as (_ & _ & _ & _ & _ & _ & _ & Hall & _).
  exact (Hall Hfit).
Defined.

Lemma to_dict_involves (db : Session) (user_id : Z) (logs : list AuditLog.t)
    (e : AuditLogOut.t) :
  (∀ log, log ∈ logs → involves user_id log) →
  e ∈ to_dict db <$> logs →
  AuditLogOut.actor_id e = user_id
  ∨ AuditLogOut.target_user_id e = Some user_id.
Proof.
  intros Hlogs He. apply list_elem_of_fmap in He as (log & -> & Hlog).
  exact (Hlogs log Hlog).
Qed.

(** C7: a requester whose role is not admin and who asks for the history of
    another user id gets the very response of a request for the own id: the
    handler returns (no exception) the listing of [get_user_logs] for the
    requester's id, in which every entry has the requester as actor or as
    target; the substituted id is the one the specification's rule names. *)
Theorem get_user_audit_logs_redirects_to_own_history
    (db : Session) (target_user_id : Z) (skip limit : option nat)
    (requester : User.t) :
  User.role requester ≠ ADMIN →
  target_user_id ≠ User.id requester →
  resolved_user_id target_user_id requester = User.id requester
  ∧ resolved_user_id target_user_id requester
    = listForUser_target requester target_user_id
  ∧ get_user_audit_logs target_user_id skip limit requester db
    = get_user_audit_logs (User.id requester) skip limit requester db
  ∧ get_user_audit_logs target_user_id skip limit requester db
    = (inr (to_dict db
              <$> get_user_logs db (User.id requester) (default 0%nat skip)
                    (Query 50 limit)), db)
  ∧ (∀ out e,
       (get_user_audit_logs target_user_id skip limit requester db).1
       = inr out →
       e ∈ out →
       AuditLogOut.actor_id e = User.id requester
       ∨ AuditLogOut.target_user_id e = Some (User.id requester)).
Proof.
  intros Hrole Hother.
  assert (Hown : ∀ uid, resolved_user_id uid requester = User.id requester).
  { intros uid. rewrite resolved_user_id_spec. unfold listForUser_target.
    by destruct (User.role requester). }
  split; [apply Hown|]. split; [apply resolved_user_id_spec|].
  rewrite !get_user_audit_logs_spec, !Hown.
  split; [reflexivity|]. split; [reflexivity|].
  intros out e [= <-] He.
  eapply to_dict_involves; [|exact He].
  intros log Hlog. by apply elem_of_get_user_logs in Hlog as [_ Hinv].
Qed.

(** The sample agent (id 3) asks for the admin's history (id 1) and receives
    the one entry the agent authored. *)
Lemma get_user_audit_logs_redirects_to_own_history_witness :
  User.role agent3 ≠ ADMIN
  ∧ 1 ≠ User.id agent3
  ∧ get_user_audit_logs 1 None None agent3 sample_db
    = get_user_audit_logs 3 None None agent3 sample_db
  ∧ sum_map id (fmap AuditLogOut.id)
      (get_user_audit_logs 1 None None agent3 sample_db).1 = inr [5].
Proof.
  assert (Hrole : User.role agent3 ≠ ADMIN) by discriminate.
  assert (Hother : 1 ≠ User.id agent3) by discriminate.
  split; [exact Hrole|]. split; [exact Hother|]. split.
  - apply (get_user_audit_logs_redirects_to_own_history
             sample_db 1 None None agent3 Hrole Hother).
  - reflexivity.
Defined.

(** C10: the history endpoint lists, for the resolved user id, the page
    [skip .. skip+limit) of the entries that have the id as [actor_id] or as
    [target_user_id], most recent first: every returned entry is such an
    entry, and with no skip and a limit that fits, all of them are returned.
    For an agent or a viewer this is wider than [get_recent_logs]: whatever
    that listing shows is in the history, and an entry another user authored
    with the requester as target is in the history and in no
    [get_recent_logs] result of the requester. *)
Theorem get_user_audit_logs_actor_or_target
    (db : Session) (user_id : Z) (skip limit : option nat)
    (requester : User.t) :
  let uid := resolved_user_id user_id requester in
  let history := filter (involves uid) (audit_logs db) in
  let logs := get_user_logs db uid (default 0%nat skip) (Query 50 limit) in
  get_user_audit_logs user_id skip limit requester db
  = (inr (to_dict db <$> logs), db)
  ∧ logs = take (Query 50 limit)
             (drop (default 0%nat skip) (order_by_timestamp_desc history))
  ∧ (∀ log, log ∈ history ↔
            log ∈ audit_logs db
            ∧ (AuditLog.actor_id log = uid
               ∨ AuditLog.target_user_id log = Some uid))
  ∧ (∀ log, log ∈ logs → log ∈ history)
  ∧ (default 0%nat skip = 0%nat → (length history ≤ Query 50 limit)%nat →
     logs ≡ₚ history)
  ∧ StronglySorted timestamp_desc logs
  ∧ (User.role requester = AGENT ∨ User.role requester = VIEWER →
     uid = User.id requester
     ∧ (∀ n log,
          log ∈ get_recent_logs db n (UserRole_value (User.role requester))
                  (User.id requester) →
          log ∈ history)
     ∧ (∀ log,
          log ∈ audit_logs db →
          AuditLog.target_user_id log = Some (User.id requester) →
          AuditLog.actor_id log ≠ User.id requester →
          log ∈ history
          ∧ ∀ n, log ∉ get_recent_logs db n
                         (UserRole_value (User.role requester))
                         (User.id requester))).
Proof.
  intros uid history logs.
  assert (Hhist : ∀ log, log ∈ history ↔
            log ∈ audit_logs db
            ∧ (AuditLog.actor_id log = uid
               ∨ AuditLog.target_user_id log = Some uid)).
  { intros log. subst history. rewrite list_elem_of_filter.
    unfold involves. tauto. }
  split; [apply get_user_audit_logs_spec|]. split; [reflexivity|].
  split; [exact Hhist|]. split; [|split; [|split; [|]]].
  - intros log Hlog. apply elem_of_get_user_logs in Hlog as [Hin Hinv].
    apply Hhist. by split.
  - intros Hskip Hfit. subst logs. unfold get_user_logs. fold history.
    rewrite Hskip, drop_0, take_ge.
    + apply order_by_timestamp_desc_perm.
    + by rewrite order_by_timestamp_desc_perm.
  - apply StronglySorted_page, order_by_timestamp_desc_sorted.
  - intros Hrole.
    assert (Huid : uid = User.id requester).
    { subst uid. rewrite resolved_user_id_spec. unfold listForUser_target.
      by destruct Hrole as [-> | ->]. }
    assert (Hvis : ∀ log, visible_to db requester log ↔
                          AuditLog.actor_id log = User.id requester).
    { intros log. unfold visible_to. by destruct Hrole as [-> | ->]. }
    split; [exact Huid|]. split.
    + intros n log Hlog. apply elem_of_get_recent_logs in Hlog as [Hin Hv].
      apply Hhist. split; [done|]. left. rewrite Huid. by apply Hvis.
    + intros log Hin Htarget Hactor. split.
      * apply Hhist. split; [done|]. right. by rewrite Huid.
      * intros n Hlog. apply elem_of_get_recent_logs in Hlog as [_ Hv].
        by apply Hvis in Hv.
Qed.

(** The sample viewer (id 4) finds in the history the entry the admin wrote
    about user 4 and the viewer's login (id 3); the recent listing has the
    login only. *)
Lemma get_user_audit_logs_actor_or_target_witness :
  (User.role viewer4 = AGENT ∨ User.role viewer4 = VIEWER)
  ∧ AuditLog.id <$> get_user_logs sample_db 4 0 50 = [4; 3]
  ∧ AuditLog.id <$> get_recent_logs sample_db 50 "viewer" 4 = [3]
  ∧ (∀ n : nat,
       AuditLog.mk 4 1 "update_page_access" (Some "user:4:page:candidates")
         (Some 4) 40
       ∉ get_recent_logs sample_db n "viewer" 4).
Proof.
  assert (Hrole : User.role viewer4 = AGENT ∨ User.role viewer4 = VIEWER)
    by (right; reflexivity).
  split; [exact Hrole|]. split; [reflexivity|]. split; [reflexivity|].
  destruct (get_user_audit_logs_actor_or_target sample_db 4 None None viewer4)
    as (_ & _ & _ & _ & _ & _ & Hwider).
  destruct (Hwider Hrole) as (_ & _ & Hextra).
  refine (proj2 (Hextra _ _ _ _)).
  - do 3 apply list_elem_of_further. apply list_elem_of_here.
  - reflexivity.
  - discriminate.
Defined.

(** ** The override store *)

Section override_store.
Implicit Types (db : Session) (rows : list UserPageAccess.t).
Implicit Types (o : UserPageAccess.t) (u : Z) (p : PageName).

Lemma filter_none {A} (P : A → Prop) `{!∀ x, Decision (P x)} (l : list A) :
  Forall (λ x, ¬ P x) l → filter P l = [].
Proof.
  induction 1 as [|x l Hx _ IH]; [done|]. by rewrite filter_cons_False.
Qed.

(** Replacing the one element that satisfies [P] by another that does. *)
Lemma filter_insert_only {A} (P : A → Prop) `{!∀ x, Decision (P x)}
    (l : list A) (i : nat) (x : A) :
  (∀ j y, l !! j = Some y → P y → j = i) → (i < length l)%nat → P x →
  filter P (<[i:=x]> l) = [x].
Proof.
  intros Honly Hi Hx. rewrite insert_take_drop by done.
  rewrite filter_app, filter_cons_True by done.
  rewrite !filter_none; [done| |].
  - apply Forall_lookup. intros j y Hj Hy.
    rewrite lookup_drop in Hj. specialize (Honly _ _ Hj Hy). lia.
  - apply Forall_lookup. intros j y Hj Hy.
    apply lookup_take_Some in Hj as [Hj Hlt].
    specialize (Honly _ _ Hj Hy). lia.
Qed.

(** Replacing an element outside [Q] by another outside [Q]. *)
Lemma filter_insert_outside {A} (Q : A → Prop) `{!∀ x, Decision (Q x)}
    (l : list A) (i : nat) (x y : A) :
  l !! i = Some y → ¬ Q y → ¬ Q x → filter Q (<[i:=x]> l) = filter Q l.
Proof.
  intros Hi Hy Hx.
  rewrite insert_take_drop by (by eapply lookup_lt_Some).
  rewrite <- (take_drop_middle l i y Hi) at 3.
  by rewrite !filter_app, !filter_cons_False.
Qed.

Lemma unique_overrides_position rows (i j : nat) o o' u p :
  unique_overrides rows →
  rows !! i = Some o → rows !! j = Some o' →
  override_for u p o → override_for u p o' → j = i.
Proof.
  intros Huniq Hi Hj [Hu Hp] [Hu' Hp'].
  apply (NoDup_lookup (override_key <$> rows) j i (u, p) Huniq).
  - rewrite list_lookup_fmap, Hj. unfold override_key. simpl. congruence.
  - rewrite list_lookup_fmap, Hi. unfold override_key. simpl. congruence.
Qed.

(** One call: the table keeps its constraint and holds exactly the returned
    row for the key, with the value set; the other rows are as before. *)
Lemma set_user_page_access_upsert now u p (v : bool) db :
  unique_overrides (user_page_access db) →
  let row := (set_user_page_access now u p v db).1 in
  let db' := (set_user_page_access now u p v db).2 in
  unique_overrides (user_page_access db')
  ∧ filter (override_for u p) (user_page_access db') = [row]
  ∧ UserPageAccess.has_access row = v
  ∧ filter (λ o, ¬ override_for u p o) (user_page_access db')
    = filter (λ o, ¬ override_for u p o) (user_page_access db).
Proof.
  intros Huniq. unfold set_user_page_access, get_by_user_and_page.
  destruct (list_find _ _) as [[i existing]|] eqn:Hfind; simpl.
  - apply list_find_Some in Hfind as (Hi & [Hu Hp] & Hfirst).
    assert (Hlt : (i < length (user_page_access db))%nat)
      by (by eapply lookup_lt_Some).
    split; [|split; [|split]].
    + unfold unique_overrides. rewrite list_fmap_insert, list_insert_id; [done|].
      rewrite list_lookup_fmap, Hi. done.
    + apply filter_insert_only; [|done|by split].
      intros j y Hj Hy.
      eapply (unique_overrides_position _ i j existing y); (done || by split).
    + done.
    + eapply filter_insert_outside; [done| |]; intros Hnot; apply Hnot;
        by split.
  - apply list_find_None in Hfind.
    split; [|split; [|split]].
    + unfold unique_overrides. rewrite fmap_app. apply NoDup_app.
      split; [done|]. split; [|apply NoDup_singleton].
      intros k Hk Hk'. apply list_elem_of_fmap in Hk as (o & -> & Ho).
      apply list_elem_of_singleton in Hk'.
      rewrite Forall_forall in Hfind. apply (Hfind o Ho).
      unfold override_key in Hk'. simpl in Hk'. injection Hk' as Hu Hp.
      by split.
    + rewrite filter_app, filter_none by done.
      by rewrite filter_cons_True, filter_nil by (by split).
    + done.
    + rewrite filter_app, filter_cons_False, filter_nil, app_nil_r; [done|].
      intros Hnot. apply Hnot. by split.
Qed.

(** A call that finds a row changes that row where it is and adds none. *)
Lemma set_user_page_access_in_place now u p (v : bool) db i existing :
  get_by_user_and_page db u p = Some (i, existing) →
  let row := (set_user_page_access now u p v db).1 in
  let db' := (set_user_page_access now u p v db).2 in
  length (user_page_access db') = length (user_page_access db)
  ∧ user_page_access db' = <[i:=row]> (user_page_access db)
  ∧ UserPageAccess.id row = UserPageAccess.id existing
  ∧ UserPageAccess.created_at row = UserPageAccess.created_at existing
  ∧ UserPageAccess.updated_at row = Some now.
Proof.
  intros Hfind. unfold set_user_page_access. rewrite Hfind. simpl.
  by rewrite length_insert.
Qed.

Lemma set_user_page_access_other_tables now u p (v : bool) db :
  users (set_user_page_access now u p v db).2 = users db
  ∧ audit_logs (set_user_page_access now u p v db).2 = audit_logs db.
Proof.
  unfold set_user_page_access.
  by destruct (get_by_user_and_page db u p) as [[i existing]|].
Qed.

(** After a call the lookup finds the returned row. *)
Lemma get_by_user_and_page_after_set now u p (v : bool) db :
  unique_overrides (user_page_access db) →
  ∃ i, get_by_user_and_page (set_user_page_access now u p v db).2 u p
       = Some (i, (set_user_page_access now u p v db).1).
Proof.
  intros Huniq.
  destruct (set_user_page_access_upsert now u p v db Huniq)
    as (_ & Hone & _ & _).
  unfold get_by_user_and_page.
  destruct (list_find _ _) as [[i o]|] eqn:Hfind.
  - exists i. apply list_find_Some in Hfind as (Hi & Ho & _).
    assert (Hin : o ∈ filter (override_for u p)
                      (user_page_access (set_user_page_access now u p v db).2)).
    { apply list_elem_of_filter. split; [done|].
      by eapply list_elem_of_lookup_2. }
    rewrite Hone in Hin. apply list_elem_of_singleton in Hin. by subst o.
  - apply list_find_None in Hfind.
    pose proof (filter_none (override_for u p) _ Hfind) as Hnil.
    rewrite Hone in Hnil. discriminate.
Qed.
(** On any store a second call for the key adds no row. *)
Lemma set_user_page_access_again_adds_no_row now now' u p (v v' : bool) db :
  let db1 := (set_user_page_access now u p v db).2 in
  length (user_page_access (set_user_page_access now' u p v' db1).2)
  = length (user_page_access db1).
Proof.
  cbn zeta.
  assert (Hfound : is_Some (get_by_user_and_page
                              (set_user_page_access now u p v db).2 u p)).
  { unfold set_user_page_access at 1, get_by_user_and_page at 2.
    destruct (list_find _ (user_page_access db))
      as [[i existing]|] eqn:Hfind.
    - apply list_find_Some in Hfind as (Hi & [Hu Hp] & _).
      eapply list_find_elem_of.
      + simpl. apply (list_elem_of_lookup_2 _ i), list_lookup_insert_eq.
        by eapply lookup_lt_Some.
      + by split.
    - eapply list_find_elem_of.
      + simpl. apply elem_of_app. right. apply list_elem_of_here.
      + by split. }
  destruct Hfound as [[i existing] Hfind].
  by destruct (set_user_page_access_in_place now' u p v' _ i existing Hfind)
    as (Hlen & _).
Qed.
End override_store.

(** C8: from a store that satisfies the uniqueness constraint of
    [(user_id, page_name)], [set(u, P, v)] followed by [set(u, P, v')] leaves
    exactly one row for [(u, P)], whose [has_access] is [v']: the second call
    finds the row of the first, updates it where it is (same primary key,
    same table length) and keeps the constraint; rows of other keys are the
    ones the store had. *)
Theorem set_user_page_access_twice_one_row
    (db : Session) (now now' : Z) (u : Z) (P : PageName) (v v' : bool) :
  unique_overrides (user_page_access db) →
  let row1 := (set_user_page_access now u P v db).1 in
  let db1 := (set_user_page_access now u P v db).2 in
  let row2 := (set_user_page_access now' u P v' db1).1 in
  let db2 := (set_user_page_access now' u P v' db1).2 in
  filter (override_for u P) (user_page_access db2) = [row2]
  ∧ UserPageAccess.has_access row2 = v'
  ∧ UserPageAccess.id row2 = UserPageAccess.id row1
  ∧ length (user_page_access db2) = length (user_page_access db1)
  ∧ unique_overrides (user_page_access db2)
  ∧ filter (λ o, ¬ override_for u P o) (user_page_access db2)
    = filter (λ o, ¬ override_for u P o) (user_page_access db).
Proof.
  intros Huniq. cbn zeta.
  destruct (set_user_page_access_upsert now u P v db Huniq)
    as (Huniq1 & Hone1 & Hv1 & Hrest1).
  destruct (get_by_user_and_page_after_set now u P v db Huniq) as [i Hfind].
  revert Huniq1 Hone1 Hrest1 Hfind.
  generalize (set_user_page_access now u P v db).2 as db1.
  generalize (set_user_page_access now u P v db).1 as row1.
  intros row1 db1 Huniq1 Hone1 Hrest1 Hfind.
  destruct (set_user_page_access_upsert now' u P v' db1 Huniq1)
    as (Huniq2 & Hone2 & Hv2 & Hrest2).
  destruct (set_user_page_access_in_place now' u P v' db1 i row1 Hfind)
    as (Hlen & _ & Hid & _).
  split; [exact Hone2|]. split; [exact Hv2|]. split; [exact Hid|].
  split; [exact Hlen|]. split; [exact Huniq2|].
  by rewrite Hrest2, Hrest1.
Qed.

(** On the sample store the viewer's candidates override is revoked and then
    granted: one row for the key remains, granting. *)
Lemma set_user_page_access_twice_one_row_witness :
  unique_overrides (user_page_access sample_db)
  ∧ filter (override_for 4 CANDIDATES)
      (user_page_access
         (set_user_page_access 71 4 CANDIDATES true
            (set_user_page_access 70 4 CANDIDATES false sample_db).2).2)
    = [UserPageAccess.mk 1 4 CANDIDATES true 5 (Some 71)].
Proof.
  assert (Huniq : unique_overrides (user_page_access sample_db)).
  { apply (bool_decide_unpack _). vm_compute. exact I. }
  split; [exact Huniq|].
  destruct (set_user_page_access_twice_one_row
              sample_db 70 71 4 CANDIDATES false true Huniq) as (Hone & _).
  exact Hone.
Defined.

(** ** The permission-change endpoint *)

Lemma get_user_permissions_total (db : Session) (user : User.t)
    (page : PageName) :
  is_Some (get_user_permissions db user !! PageName_value page).
Proof.
  unfold get_user_permissions.
  destruct (role_permissions_lookup (User.role user)) as (m & Hm & Hdef).
  rewrite get_user_permissions_with_lookup, Hm. simpl.
  apply apply_overrides_is_Some. rewrite Hdef.
  apply RoleDefaultPermission_total.
Qed.

(** What the handler does for an admin on an existing target. *)
Lemma update_user_page_access_run (db : Session) (now : Z) (user_id : Z)
    (page_name : PageName) (has_access : bool) (current_user user : User.t) :
  User.role current_user = ADMIN →
  get_user db user_id = Some user →
  update_user_page_access now user_id page_name has_access current_user db
  = let db1 :=
      (set_user_page_access now user_id page_name has_access db).2 in
    (inr {[ "message" :=
              "Page access updated for " +:+ PageName_value page_name ]},
     if decide (default false (get_user_permissions db user
                                 !! PageName_value page_name) ≠ has_access)
     then (create_audit_log now
             (page_access_audit_data current_user user_id page_name) db1).2
     else db1).
Proof.
  intros Hrole Huser.
  unfold update_user_page_access, bind, Depends, query, commit, raise, ret.
  rewrite get_current_admin_user_spec, Huser.
  rewrite decide_True by done.
  destruct (set_user_page_access now user_id page_name has_access db)
    as [row db1].
  cbn zeta. by case_decide.
Qed.

(** C6 (as amended): for an admin and an existing target user the handler
    answers with the confirmation message for the page and nothing else;
    it upserts the override, and it appends one audit entry (actor, action
    [update_page_access], target user) exactly when the new [has_access]
    differs from the prior effective permission of (user, page); a request
    that changes nothing leaves the audit table as it was. *)
Theorem update_user_page_access_logs_changes_only
    (db : Session) (now : Z) (user_id : Z) (page_name : PageName)
    (has_access : bool) (current_user user : User.t) :
  User.role current_user = ADMIN →
  get_user db user_id = Some user →
  let prior :=
    default false (get_user_permissions db user !! PageName_value page_name) in
  let run :=
    update_user_page_access now user_id page_name has_access current_user db in
  run.1 = inr {[ "message" :=
                   "Page access updated for " +:+ PageName_value page_name ]}
  ∧ get_user_permissions db user !! PageName_value page_name = Some prior
  ∧ user_page_access run.2
    = user_page_access
        (set_user_page_access now user_id page_name has_access db).2
  ∧ (prior ≠ has_access →
     audit_logs run.2
     = (audit_logs db
        ++ [AuditLog.mk (next_id (AuditLog.id <$> audit_logs db))
              (User.id current_user) "update_page_access"
              (Some ("user:" +:+ pretty user_id +:+ ":page:"
                       +:+ PageName_value page_name))
              (Some user_id) now])%list)
  ∧ (prior = has_access → audit_logs run.2 = audit_logs db)
  ∧ (length (audit_logs run.2) = S (length (audit_logs db))
     ↔ prior ≠ has_access).
Proof.
  intros Hrole Huser prior run. subst run.
  rewrite (update_user_page_access_run db now user_id page_name has_access
             current_user user Hrole Huser).
  cbn zeta. fold prior.
  destruct (set_user_page_access_other_tables now user_id page_name
              has_access db) as [_ Hlogs].
  split; [reflexivity|]. split.
  { subst prior.
    by destruct (get_user_permissions_total db user page_name) as [b ->]. }
  case_decide as Hchange; simpl; rewrite Hlogs.
  - split; [reflexivity|]. split; [reflexivity|]. split; [done|].
    rewrite length_app. simpl. split; [done|lia].
  - split; [reflexivity|]. split; [done|]. split; [done|]. split; [lia|done].
Qed.

(** The admin grants the calls page to the sample viewer (a change: one more
    audit entry) and grants the candidates page the viewer already holds (no
    change: no entry). *)
Lemma update_user_page_access_logs_changes_only_witness :
  User.role admin1 = ADMIN
  ∧ get_user sample_db 4 = Some viewer4
  ∧ length (audit_logs (update_user_page_access 60 4 CALLS true admin1
                          sample_db).2) = 6%nat
  ∧ audit_logs (update_user_page_access 60 4 CANDIDATES true admin1
                  sample_db).2 = audit_logs sample_db.
Proof.
  assert (Hrole : User.role admin1 = ADMIN) by reflexivity.
  assert (Huser : get_user sample_db 4 = Some viewer4) by reflexivity.
  split; [exact Hrole|]. split; [exact Huser|]. split.
  - destruct (update_user_page_access_logs_changes_only
                sample_db 60 4 CALLS true admin1 viewer4 Hrole Huser)
      as (_ & _ & _ & _ & _ & Hlen).
    apply Hlen. vm_compute. discriminate.
  - destruct (update_user_page_access_logs_changes_only
                sample_db 60 4 CANDIDATES true admin1 viewer4 Hrole Huser)
      as (_ & _ & _ & _ & Hsame & _).
    apply Hsame. vm_compute. reflexivity.
Defined.

(** Against C6 as stated: the response does not tell a change from a no-op.
    Granting candidates to the sample viewer gets the same response on the
    store where the viewer already holds the grant (prior value true) and on
    the store without override rows (prior value false), and the response
    has the message as its only field. *)
Lemma update_user_page_access_response_omits_prior_value :
  default false (get_user_permissions sample_db viewer4 !! "candidates") = true
  ∧ default false (get_user_permissions plain_db viewer4 !! "candidates")
    = false
  ∧ (update_user_page_access 60 4 CANDIDATES true admin1 sample_db).1
    = inr {[ "message" := "Page access updated for candidates" ]}
  ∧ (update_user_page_access 60 4 CANDIDATES true admin1 plain_db).1
    = inr {[ "message" := "Page access updated for candidates" ]}.
Proof. vm_compute. repeat split; reflexivity. Qed.

(** ** The limit of the audit read endpoints *)





(** ** Audit entries of a deleted user *)

Lemma get_user_Some (db : Session) (id : Z) (u : User.t) :
  get_user db id = Some u → User.id u = id ∧ u ∈ users db.
Proof.
  unfold get_user. intros Hget.
  apply fmap_Some in Hget as ([i u'] & Hfind & ->).
  apply list_find_Some in Hfind as (Hi & Hid & _).
  split; [done|]. by eapply list_elem_of_lookup_2.
Qed.





(** * Further properties of the code *)

(** ** The identity of a request *)

(** X1: [get_current_user] returns a user exactly when the token verifies,
    the subject is the primary key of a row of [users] and that row is
    active; it answers 401 exactly for a token that does not verify, 404
    exactly for a verified subject without a row, and 400 exactly for an
    inactive row. *)
Theorem get_current_user_outcomes (db : Session) (verified : option Z) :
  (∀ u, get_current_user db verified = inr u ↔
        ∃ id, verified = Some id ∧ get_user db id = Some u
              ∧ User.active u = true)
  ∧ (get_current_user db verified = inl could_not_validate_credentials
     ↔ verified = None)
  ∧ (get_current_user db verified = inl user_not_found
     ↔ ∃ id, verified = Some id ∧ get_user db id = None)
  ∧ (get_current_user db verified = inl inactive_user
     ↔ ∃ id u, verified = Some id ∧ get_user db id = Some u
               ∧ User.active u = false).
Proof.
  unfold get_current_user, is_active.
  destruct verified as [id|].
  - destruct (get_user db id) as [u|] eqn:Hget.
    + destruct (User.active u) eqn:Hactive; simpl.
      * split; [|split; [|split]].
        -- intros u'. split.
           ++ intros [= <-]. by exists id.
           ++ intros (id' & [= <-] & Hget' & _). congruence.
        -- split; discriminate.
        -- split; [discriminate|]. intros (id' & [= <-] & Hnone). congruence.
        -- split; [discriminate|].
           intros (id' & u' & [= <-] & Hget' & Hinactive). congruence.
      * split; [|split; [|split]].
        -- intros u'. split; [discriminate|].
           intros (id' & [= <-] & Hget' & Hact). congruence.
        -- split; discriminate.
        -- split; [discriminate|]. intros (id' & [= <-] & Hnone). congruence.
        -- split; [|done]. intros _. by exists id, u.
    + split; [|split; [|split]].
      * intros u'. split; [discriminate|].
        intros (id' & [= <-] & Hget' & _). congruence.
      * split; discriminate.
      * split; [|done]. intros _. by exists id.
      * split; [discriminate|].
        intros (id' & u' & [= <-] & Hget' & _). congruence.
  - split; [|split; [|split]].
    + intros u'. split; [discriminate|]. by intros (id' & [=] & _).
    + done.
    + split; [discriminate|]. by intros (id' & [=] & _).
    + split; [discriminate|]. by intros (id' & u' & [=] & _).
Qed.

(** X2: a gate resolved from the credentials of a request admits only an
    active user that is a row of [users]: the admin gate returns a user
    exactly for an active admin row, the page gate exactly for an active row
    whose resolved permission for the page is true.  An inactive user is
    refused with the 400 whatever the role or the overrides. *)
Theorem resolved_gates_admit_active_rows_only
    (db : Session) (verified : option Z) (page : PageName) :
  (∀ u, resolve get_current_admin_user db verified = inr u ↔
        ∃ id, verified = Some id ∧ get_user db id = Some u
              ∧ User.active u = true ∧ User.role u = ADMIN)
  ∧ (∀ u, resolve (check_page_access page db) db verified = inr u ↔
          ∃ id, verified = Some id ∧ get_user db id = Some u
                ∧ User.active u = true
                ∧ get_user_permissions db u !! PageName_value page
                  = Some true)
  ∧ (∀ id u, verified = Some id → get_user db id = Some u →
             User.active u = false →
             resolve get_current_admin_user db verified = inl inactive_user
             ∧ resolve (check_page_access page db) db verified
               = inl inactive_user).
Proof.
  unfold resolve, get_current_user, is_active.
  destruct verified as [id|]; [destruct (get_user db id) as [cu|] eqn:Hget;
    [destruct (User.active cu) eqn:Hactive|]|]; simpl.
  - split; [|split].
    + intros u. rewrite get_current_admin_user_spec.
      case_decide as Hrole; split.
      * intros [= <-]. by exists id.
      * intros (id' & [= <-] & Hget' & _). congruence.
      * discriminate.
      * intros (id' & [= <-] & Hget' & _ & Hrole'). congruence.
    + intros u. unfold check_page_access.
      rewrite check_page_access_with_spec.
      fold (get_user_permissions db cu).
      case_decide as Hperm; split.
      * intros [= <-]. by exists id.
      * intros (id' & [= <-] & Hget' & _). congruence.
      * discriminate.
      * intros (id' & [= <-] & Hget' & _ & Hperm'). congruence.
    + intros id' u [= <-] Hget' Hinactive. congruence.
  - split; [|split].
    + intros u. split; [discriminate|].
      intros (id' & [= <-] & Hget' & Hact & _). congruence.
    + intros u. split; [discriminate|].
      intros (id' & [= <-] & Hget' & Hact & _). congruence.
    + done.
  - split; [|split].
    + intros u. split; [discriminate|].
      intros (id' & [= <-] & Hget' & _). congruence.
    + intros u. split; [discriminate|].
      intros (id' & [= <-] & Hget' & _). congruence.
    + intros id' u [= <-] Hget' _. congruence.
  - split; [|split].
    + intros u. split; [discriminate|]. by intros (id' & [=] & _).
    + intros u. split; [discriminate|]. by intros (id' & [=] & _).
    + by intros id' u [=].
Qed.

(** X3: [get_current_admin_or_manager_user] returns the user exactly for the
    roles admin and manager and raises its 403 for agent and viewer; whoever
    passes [get_current_admin_user] passes it too. *)
Theorem admin_or_manager_gate_roles (current_user : User.t) :
  (get_current_admin_or_manager_user current_user = inr current_user
   ↔ User.role current_user = ADMIN ∨ User.role current_user = MANAGER)
  ∧ (get_current_admin_or_manager_user current_user
     = inl admin_or_manager_required
     ↔ User.role current_user = AGENT ∨ User.role current_user = VIEWER)
  ∧ (get_current_admin_user current_user = inr current_user →
     get_current_admin_or_manager_user current_user = inr current_user).
Proof.
  unfold get_current_admin_or_manager_user, get_current_admin_user.
  destruct current_user as [i e n h r a].
  destruct r; simpl; (split; [|split]);
    try (split; [discriminate|]); try (split; [|discriminate]);
    try tauto; try discriminate; try (intros [H|H]; discriminate H);
    try (intros _; auto).
Qed.

(** ** Overrides: lookup, update and resolution together *)

Section overrides_more.
Implicit Types (db : Session) (rows : list UserPageAccess.t).
Implicit Types (o : UserPageAccess.t) (u : Z) (p : PageName).

Lemma apply_overrides_last (m : gmap PageName bool) rows p :
  apply_overrides m rows !! p
  = match last (filter (λ o, UserPageAccess.page_name o = p) rows) with
    | Some o => Some (UserPageAccess.has_access o)
    | None => m !! p
    end.
Proof.
  induction rows as [|o rows IH] using rev_ind; [done|].
  rewrite apply_overrides_snoc, filter_app.
  destruct (decide (UserPageAccess.page_name o = p)) as [Heq|Hne].
  - rewrite filter_cons_True, filter_nil, last_snoc by done.
    by rewrite <- Heq, lookup_insert_eq.
  - rewrite filter_cons_False, filter_nil, app_nil_r by done.
    by rewrite lookup_insert_ne.
Qed.

Lemma overrides_of_page db u p :
  filter (λ o, UserPageAccess.page_name o = p) (overrides_of db u)
  = filter (override_for u p) (user_page_access db).
Proof.
  unfold overrides_of. rewrite list_filter_filter.
  apply list_filter_iff. intros o. unfold override_for. tauto.
Qed.

Lemma get_user_permissions_last db (user : User.t) p :
  get_user_permissions db user !! PageName_value p
  = match last (filter (override_for (User.id user) p)
                  (user_page_access db)) with
    | Some o => Some (UserPageAccess.has_access o)
    | None => RoleDefaultPermission (User.role user) p
    end.
Proof.
  unfold get_user_permissions.
  destruct (role_permissions_lookup (User.role user)) as (m & Hm & Hdef).
  rewrite get_user_permissions_with_lookup, Hm. simpl.
  by rewrite apply_overrides_last, overrides_of_page, Hdef.
Qed.

Lemma list_find_insert_outside {A} (Q : A → Prop) `{!∀ x, Decision (Q x)}
    (l : list A) (i : nat) (x y : A) :
  l !! i = Some y → ¬ Q y → ¬ Q x → list_find Q (<[i:=x]> l) = list_find Q l.
Proof.
  revert i. induction l as [|a l IH]; intros i Hi Hy Hx; [done|].
  destruct i as [|i]; simpl in *.
  - injection Hi as ->. by rewrite !decide_False.
  - case_decide; [done|]. by rewrite (IH i).
Qed.

Lemma list_find_snoc_outside {A} (Q : A → Prop) `{!∀ x, Decision (Q x)}
    (l : list A) (x : A) :
  ¬ Q x → list_find Q (l ++ [x]) = list_find Q l.
Proof.
  intros Hx. induction l as [|a l IH]; simpl.
  - by rewrite decide_False.
  - case_decide; [done|]. by rewrite IH.
Qed.

(** What one call does to the table, on any store. *)
Lemma set_user_page_access_rows now u p (v : bool) db :
  let row := (set_user_page_access now u p v db).1 in
  let rows' := user_page_access (set_user_page_access now u p v db).2 in
  override_for u p row ∧ UserPageAccess.has_access row = v
  ∧ ((∃ i existing, get_by_user_and_page db u p = Some (i, existing)
                    ∧ rows' = <[i:=row]> (user_page_access db))
     ∨ (get_by_user_and_page db u p = None
        ∧ rows' = (user_page_access db ++ [row])%list)).
Proof.
  unfold set_user_page_access.
  destruct (get_by_user_and_page db u p) as [[i existing]|] eqn:Hfind; simpl.
  - apply list_find_Some in Hfind as (Hi & Hkey & _).
    split; [exact Hkey|]. split; [done|]. left. by exists i, existing.
  - split; [by split|]. split; [done|]. by right.
Qed.

Lemma set_user_page_access_find now u p (v : bool) db :
  ∃ i, get_by_user_and_page (set_user_page_access now u p v db).2 u p
       = Some (i, (set_user_page_access now u p v db).1).
Proof.
  destruct (set_user_page_access_rows now u p v db)
    as (Hkey & _ & [(i & existing & Hfind & Hrows)|[Hfind Hrows]]).
  - exists i. unfold get_by_user_and_page in *. rewrite Hrows.
    apply list_find_Some in Hfind as (Hi & _ & Hfirst).
    apply list_find_Some. split; [|split; [exact Hkey|]].
    + apply list_lookup_insert_eq. by eapply lookup_lt_Some.
    + intros j y Hj Hlt. rewrite list_lookup_insert_ne in Hj by lia.
      by eapply Hfirst.
  - exists (length (user_page_access db)).
    unfold get_by_user_and_page in *. rewrite Hrows.
    rewrite list_find_app_r by done. simpl.
    by rewrite decide_True.
Qed.

Lemma set_user_page_access_find_other now u p (v : bool) db u' p' :
  u' ≠ u ∨ p' ≠ p →
  get_by_user_and_page (set_user_page_access now u p v db).2 u' p'
  = get_by_user_and_page db u' p'.
Proof.
  intros Hother.
  assert (Hout : ∀ o, override_for u p o → ¬ override_for u' p' o).
  { intros o [Hu Hp] [Hu' Hp']. destruct Hother; congruence. }
  destruct (set_user_page_access_rows now u p v db)
    as (Hkey & _ & [(i & existing & Hfind & Hrows)|[Hfind Hrows]]);
    unfold get_by_user_and_page in *; rewrite Hrows.
  - apply list_find_Some in Hfind as (Hi & Hex & _).
    eapply list_find_insert_outside; eauto.
  - apply list_find_snoc_outside; auto.
Qed.

Lemma set_user_page_access_other_keys now u p (v : bool) db
    (Q : UserPageAccess.t → Prop) `{!∀ o, Decision (Q o)} :
  (∀ o, override_for u p o → ¬ Q o) →
  filter Q (user_page_access (set_user_page_access now u p v db).2)
  = filter Q (user_page_access db).
Proof.
  intros Hout.
  destruct (set_user_page_access_rows now u p v db)
    as (Hkey & _ & [(i & existing & Hfind & Hrows)|[Hfind Hrows]]);
    rewrite Hrows.
  - apply list_find_Some in Hfind as (Hi & Hex & _).
    eapply filter_insert_outside; eauto.
  - rewrite filter_app, filter_cons_False, filter_nil, app_nil_r; auto.
Qed.

Lemma get_user_permissions_rows db1 db2 (user : User.t) :
  user_page_access db1 = user_page_access db2 →
  get_user_permissions db1 user = get_user_permissions db2 user.
Proof.
  intros Hrows.
  unfold get_user_permissions, get_user_permissions_with, overrides_of.
  by rewrite Hrows.
Qed.
End overrides_more.

(** X4: on any store, with or without duplicate rows, the resolved
    permission of a page is the [has_access] of the last row of the table
    for (user, page), and the role default when the table has no such row. *)
Theorem get_user_permissions_last_row_decides
    (db : Session) (user : User.t) (page : PageName) :
  get_user_permissions db user !! PageName_value page
  = match last (filter (override_for (User.id user) page)
                  (user_page_access db)) with
    | Some o => Some (UserPageAccess.has_access o)
    | None => RoleDefaultPermission (User.role user) page
    end.
Proof. apply get_user_permissions_last. Qed.

(** X5: on any store, after [set_user_page_access(u, P, v)] the lookup
    [get_by_user_and_page(u, P)] finds the row the call returned, which
    carries the key and the value [v]; the lookup of every other key finds
    what it found before, at the same position. *)
Theorem set_then_get_by_user_and_page
    (db : Session) (now : Z) (u : Z) (P : PageName) (v : bool) :
  let row := (set_user_page_access now u P v db).1 in
  let db' := (set_user_page_access now u P v db).2 in
  (∃ i, get_by_user_and_page db' u P = Some (i, row))
  ∧ UserPageAccess.user_id row = u
  ∧ UserPageAccess.page_name row = P
  ∧ UserPageAccess.has_access row = v
  ∧ (∀ u' P', u' ≠ u ∨ P' ≠ P →
       get_by_user_and_page db' u' P' = get_by_user_and_page db u' P').
Proof.
  cbn zeta.
  destruct (set_user_page_access_rows now u P v db) as ([Hu Hp] & Hv & _).
  split; [apply set_user_page_access_find|].
  split; [exact Hu|]. split; [exact Hp|]. split; [exact Hv|].
  intros u' P' Hother. by apply set_user_page_access_find_other.
Qed.

(** ** The user management handlers *)

Lemma check_page_access_spec page db (current_user : User.t) :
  check_page_access page db current_user
  = if decide (get_user_permissions db current_user !! PageName_value page
               = Some true)
    then inr current_user
    else inl (access_denied page).
Proof. apply check_page_access_with_spec. Qed.

(** X6: when an admin's [update_user_page_access(user_id, page, v)] succeeds
    on a store that satisfies the uniqueness constraint, the very next
    resolution for that user gives [v] for the page, so the page gate lets
    the user through exactly when [v] is true; the user row is as it was. *)
Theorem update_user_page_access_takes_effect
    (db : Session) (now : Z) (user_id : Z) (page_name : PageName)
    (has_access : bool) (current_user user : User.t) :
  User.role current_user = ADMIN →
  get_user db user_id = Some user →
  unique_overrides (user_page_access db) →
  let db' :=
    (update_user_page_access now user_id page_name has_access current_user
       db).2 in
  get_user_permissions db' user !! PageName_value page_name = Some has_access
  ∧ (check_page_access page_name db' user = inr user ↔ has_access = true)
  ∧ (check_page_access page_name db' user = inl (access_denied page_name)
     ↔ has_access = false)
  ∧ get_user db' user_id = Some user
  ∧ unique_overrides (user_page_access db').
Proof.
  intros Hrole Huser Huniq. cbn zeta.
  rewrite (update_user_page_access_run db now user_id page_name has_access
             current_user user Hrole Huser). cbn zeta. cbn [snd].
  set (db1 := (set_user_page_access now user_id page_name has_access db).2).
  set (db' := if decide _ then _ else db1).
  assert (Hrows : user_page_access db' = user_page_access db1).
  { subst db'. by case_decide. }
  assert (Husers : users db' = users db).
  { destruct (set_user_page_access_other_tables now user_id page_name
                has_access db) as [Hu _].
    subst db'. by case_decide. }
  destruct (set_user_page_access_upsert now user_id page_name has_access db
              Huniq) as (Huniq1 & Hone & Hv & _).
  fold db1 in Huniq1, Hone.
  assert (Hid : User.id user = user_id)
    by (by destruct (get_user_Some db user_id user Huser)).
  assert (Hperm : get_user_permissions db' user !! PageName_value page_name
                  = Some has_access).
  { rewrite (get_user_permissions_rows db' db1 user Hrows).
    rewrite get_user_permissions_last, Hid, Hone. simpl. by rewrite Hv. }
  split; [exact Hperm|].
  rewrite check_page_access_spec, Hperm.
  split; [|split; [|split]].
  - destruct has_access; case_decide; split; congruence.
  - destruct has_access; case_decide; split; congruence.
  - unfold get_user. by rewrite Husers.
  - by rewrite Hrows.
Qed.

(** The admin revokes the dashboard of the sample manager: the next check of
    that page refuses the manager. *)
Lemma update_user_page_access_takes_effect_witness :
  User.role admin1 = ADMIN
  ∧ get_user sample_db 2 = Some manager2
  ∧ unique_overrides (user_page_access sample_db)
  ∧ check_page_access DASHBOARD sample_db manager2 = inr manager2
  ∧ check_page_access DASHBOARD
      (update_user_page_access 60 2 DASHBOARD false admin1 sample_db).2
      manager2 = inl (access_denied DASHBOARD).
Proof.
  assert (Hrole : User.role admin1 = ADMIN) by reflexivity.
  assert (Huser : get_user sample_db 2 = Some manager2) by reflexivity.
  assert (Huniq : unique_overrides (user_page_access sample_db)).
  { apply (bool_decide_unpack _). vm_compute. exact I. }
  split; [exact Hrole|]. split; [exact Huser|]. split; [exact Huniq|].
  split; [reflexivity|].
  destruct (update_user_page_access_takes_effect
              sample_db 60 2 DASHBOARD false admin1 manager2
              Hrole Huser Huniq) as (_ & _ & Hdeny & _).
  by apply Hdeny.
Defined.

(** X7: on any store, a successful [update_user_page_access(user_id, page,
    v)] changes no other resolved permission: for every user and page other
    than that pair the resolution is the one before the request. *)
Theorem update_user_page_access_changes_one_pair_only
    (db : Session) (now : Z) (user_id : Z) (page_name : PageName)
    (has_access : bool) (current_user user : User.t)
    (user' : User.t) (page' : PageName) :
  User.role current_user = ADMIN →
  get_user db user_id = Some user →
  User.id user' ≠ user_id ∨ page' ≠ page_name →
  get_user_permissions
    (update_user_page_access now user_id page_name has_access current_user
       db).2 user' !! PageName_value page'
  = get_user_permissions db user' !! PageName_value page'.
Proof.
  intros Hrole Huser Hother.
  rewrite (update_user_page_access_run db now user_id page_name has_access
             current_user user Hrole Huser). cbn zeta. cbn [snd].
  set (db1 := (set_user_page_access now user_id page_name has_access db).2).
  set (db' := if decide _ then _ else db1).
  assert (Hrows : user_page_access db' = user_page_access db1).
  { subst db'. by case_decide. }
  rewrite (get_user_permissions_rows db' db1 user' Hrows).
  rewrite !get_user_permissions_last. subst db1.
  rewrite set_user_page_access_other_keys; [done|].
  intros o [Hu Hp] [Hu' Hp']. destruct Hother; congruence.
Qed.

(** Granting calls to the sample viewer leaves the viewer's candidates
    grant and the agent's calls revocation as they were. *)
Lemma update_user_page_access_changes_one_pair_only_witness :
  User.role admin1 = ADMIN
  ∧ get_user sample_db 4 = Some viewer4
  ∧ (User.id agent3 ≠ 4 ∨ CALLS ≠ CALLS)
  ∧ get_user_permissions
      (update_user_page_access 60 4 CALLS true admin1 sample_db).2 agent3
    !! "calls" = Some false.
Proof.
  assert (Hrole : User.role admin1 = ADMIN) by reflexivity.
  assert (Huser : get_user sample_db 4 = Some viewer4) by reflexivity.
  assert (Hother : User.id agent3 ≠ 4 ∨ CALLS ≠ CALLS)
    by (left; discriminate).
  split; [exact Hrole|]. split; [exact Huser|]. split; [exact Hother|].
  transitivity (get_user_permissions sample_db agent3 !! PageName_value CALLS);
    [|reflexivity].
  apply (update_user_page_access_changes_one_pair_only
           sample_db 60 4 CALLS true admin1 viewer4 agent3 CALLS
           Hrole Huser Hother).
Defined.






(** ** Creating users and authenticating them *)

Lemma next_id_above (ids : list Z) (x : Z) : x ∈ ids → x < next_id ids.
Proof.
  unfold next_id. induction ids as [|y ids IH]; intros Hx.
  - by apply elem_of_nil in Hx.
  - apply elem_of_cons in Hx as [->|Hx]; simpl; [lia|].
    specialize (IH Hx). lia.
Qed.

Lemma get_by_email_None (db : Session) (email : string) :
  CRUDUser.get_by_email db email = None
  ↔ ∀ u, u ∈ users db → User.email u ≠ email.
Proof.
  unfold CRUDUser.get_by_email. rewrite fmap_None, list_find_None.
  by rewrite Forall_forall.
Qed.

Lemma get_by_email_snoc (db : Session) (l : list UserPageAccess.t)
    (a : list AuditLog.t) (u : User.t) :
  CRUDUser.get_by_email db (User.email u) = None →
  CRUDUser.get_by_email (mkSession (users db ++ [u]) l a) (User.email u)
  = Some u.
Proof.
  unfold CRUDUser.get_by_email. rewrite fmap_None. intros Hnone. simpl.
  rewrite list_find_app_r by done. simpl. by rewrite decide_True.
Qed.

Lemma get_user_snoc (db : Session) (l : list UserPageAccess.t)
    (a : list AuditLog.t) (u : User.t) :
  User.id u = next_id (User.id <$> users db) →
  get_user (mkSession (users db ++ [u]) l a) (User.id u) = Some u.
Proof.
  intros Hid. unfold get_user. simpl.
  rewrite list_find_app_r; [simpl; by rewrite decide_True|].
  apply list_find_None, Forall_forall. intros u' Hu' Heq.
  assert (Hlt : User.id u' < next_id (User.id <$> users db))
    by (by apply next_id_above, list_elem_of_fmap_2).
  lia.
Qed.

(** What [create_user] does for an admin. *)
Lemma create_user_run (get_password_hash : string → string) (db : Session)
    (now : Z) (user_in : UserCreate.t) (current_user : User.t) :
  User.role current_user = ADMIN →
  create_user get_password_hash now user_in current_user db
  = match CRUDUser.get_by_email db (UserCreate.email user_in) with
    | Some _ => (inl email_already_exists, db)
    | None =>
        let new_user := (CRUDUser.create get_password_hash user_in db).1 in
        let db1 := (CRUDUser.create get_password_hash user_in db).2 in
        (inr new_user,
         (create_audit_log now
            (AuditLogCreate.mk (User.id current_user) "create_user"
               (Some ("user:" +:+ pretty (User.id new_user)))
               (Some (User.id new_user))) db1).2)
    end.
Proof.
  intros Hrole.
  unfold create_user, bind, Depends, query, commit, raise, ret.
  rewrite get_current_admin_user_spec, decide_True by done.
  by destruct (CRUDUser.get_by_email db (UserCreate.email user_in)).
Qed.

(** X11: for an admin requester [create_user] ends in the 400 exactly when
    a user already has the email, and then writes nothing.  Otherwise the
    new row is appended with the fields of the request, the hash of the
    password and a fresh primary key; it is found by its email and by its
    id; a table without two users of one email stays so; and one
    [create_user] audit entry with the requester as actor and the new id as
    target is appended. *)
Theorem create_user_keeps_emails_unique
    (get_password_hash : string → string) (db : Session) (now : Z)
    (user_in : UserCreate.t) (current_user : User.t) :
  User.role current_user = ADMIN →
  let run := create_user get_password_hash now user_in current_user db in
  (run.1 = inl email_already_exists
   ↔ is_Some (CRUDUser.get_by_email db (UserCreate.email user_in)))
  ∧ (run.1 = inl email_already_exists → run.2 = db)
  ∧ (∀ new_user, run.1 = inr new_user →
       CRUDUser.get_by_email db (UserCreate.email user_in) = None
       ∧ users run.2 = (users db ++ [new_user])%list
       ∧ new_user
         = User.mk (next_id (User.id <$> users db))
             (UserCreate.email user_in) (UserCreate.full_name user_in)
             (get_password_hash (UserCreate.password user_in))
             (UserCreate.role user_in) (UserCreate.active user_in)
       ∧ (∀ u, u ∈ users db → User.id u ≠ User.id new_user)
       ∧ CRUDUser.get_by_email run.2 (UserCreate.email user_in)
         = Some new_user
       ∧ get_user run.2 (User.id new_user) = Some new_user
       ∧ (NoDup (User.email <$> users db) →
          NoDup (User.email <$> users run.2))
       ∧ audit_logs run.2
         = (audit_logs db
            ++ [AuditLog.mk (next_id (AuditLog.id <$> audit_logs db))
                  (User.id current_user) "create_user"
                  (Some ("user:" +:+ pretty (User.id new_user)))
                  (Some (User.id new_user)) now])%list).
Proof.
  intros Hrole. cbn zeta.
  rewrite (create_user_run get_password_hash db now user_in current_user Hrole).
  destruct (CRUDUser.get_by_email db (UserCreate.email user_in))
    as [existing|] eqn:Hemail.
  - simpl. split; [split; eauto|]. split; [done|]. discriminate.
  - cbn zeta. cbn [fst snd].
    split; [split; [discriminate|by intros [u [=]]]|].
    split; [discriminate|].
    intros new_user [= <-]. simpl.
    split; [done|]. split; [done|]. split; [done|]. split.
    { intros u Hu Heq.
      assert (Hlt : User.id u < next_id (User.id <$> users db))
        by (by apply next_id_above, list_elem_of_fmap_2).
      lia. }
    split.
    { apply (get_by_email_snoc db _ _
               (User.mk _ (UserCreate.email user_in) _ _ _ _)), Hemail. }
    split.
    { by apply (get_user_snoc db _ _ (User.mk _ _ _ _ _ _)). }
    split; [|done].
    intros Hnd. rewrite fmap_app. apply NoDup_app.
    split; [done|]. split; [|apply NoDup_singleton].
    intros email Hin Hnew. apply list_elem_of_singleton in Hnew.
    apply list_elem_of_fmap in Hin as (u & -> & Hu).
    by apply (proj1 (get_by_email_None _ _) Hemail u Hu).
Qed.

(** On the sample store the admin creates a user with a new email, which gets
    id 5; a second request with the email of user 2 is refused. *)
Lemma create_user_keeps_emails_unique_witness :
  User.role admin1 = ADMIN
  ∧ User.id <$> (users (create_user toy_hash 60 sample_user_in admin1
                          sample_db).2) = [1; 2; 3; 4; 5]
  ∧ (create_user toy_hash 60
       (UserCreate.mk "user2@example.com" "Other" "pw" VIEWER true)
       admin1 sample_db).1 = inl email_already_exists.
Proof.
  assert (Hrole : User.role admin1 = ADMIN) by reflexivity.
  split; [exact Hrole|]. split; [reflexivity|].
  destruct (create_user_keeps_emails_unique toy_hash sample_db 60
              (UserCreate.mk "user2@example.com" "Other" "pw" VIEWER true)
              admin1 Hrole) as (Hdup & _).
  apply Hdup. by eexists.
Defined.

(** X12: where [verify_password] accepts a password against its own hash, a
    user [create_user] has just created authenticates with the email and
    password of the request, and a password that does not verify against
    the stored hash is refused; on any store [authenticate] returns only a
    row of [users] that has the email and whose stored hash verifies the
    password, and nothing for an email no row has. *)
Theorem create_user_then_authenticate
    (get_password_hash : string → string)
    (verify_password : string → string → bool)
    (db : Session) (now : Z) (user_in : UserCreate.t)
    (current_user new_user : User.t) :
  (∀ p, verify_password p (get_password_hash p) = true) →
  (create_user get_password_hash now user_in current_user db).1
  = inr new_user →
  let db' := (create_user get_password_hash now user_in current_user db).2 in
  CRUDUser.authenticate verify_password db' (UserCreate.email user_in)
    (UserCreate.password user_in) = Some new_user
  ∧ (∀ p, verify_password p
            (get_password_hash (UserCreate.password user_in)) = false →
          CRUDUser.authenticate verify_password db'
            (UserCreate.email user_in) p = None)
  ∧ (∀ email p u,
       CRUDUser.authenticate verify_password db' email p = Some u →
       u ∈ users db' ∧ User.email u = email
       ∧ verify_password p (User.password_hash u) = true)
  ∧ (∀ email p, (∀ u, u ∈ users db' → User.email u ≠ email) →
       CRUDUser.authenticate verify_password db' email p = None).
Proof.
  intros Hverify Hrun. cbn zeta.
  assert (Hrole : User.role current_user = ADMIN).
  { destruct (decide (User.role current_user = ADMIN)) as [Hr|Hr]; [done|].
    revert Hrun.
    unfold create_user, bind, Depends. rewrite get_current_admin_user_spec.
    by rewrite decide_False. }
  rewrite (create_user_run get_password_hash db now user_in current_user
             Hrole) in Hrun |- *.
  destruct (CRUDUser.get_by_email db (UserCreate.email user_in))
    as [existing|] eqn:Hemail; [discriminate Hrun|].
  cbn zeta in Hrun |- *. cbn [fst snd] in Hrun |- *.
  injection Hrun as Hnew. symmetry in Hnew.
  assert (Hfound :
    CRUDUser.get_by_email
      (create_audit_log now
         (AuditLogCreate.mk (User.id current_user) "create_user"
            (Some ("user:" +:+ pretty
                     (User.id (CRUDUser.create get_password_hash user_in
                                 db).1)))
            (Some (User.id (CRUDUser.create get_password_hash user_in
                              db).1)))
         (CRUDUser.create get_password_hash user_in db).2).2
      (UserCreate.email user_in) = Some new_user).
  { rewrite Hnew.
    apply (get_by_email_snoc db _ _
             (User.mk _ (UserCreate.email user_in) _ _ _ _)), Hemail. }
  unfold CRUDUser.authenticate.
  split; [|split; [|split]].
  - rewrite Hfound. rewrite Hnew at 1. simpl. by rewrite Hverify.
  - intros p Hp. rewrite Hfound. rewrite Hnew at 1. simpl. by rewrite Hp.
  - intros email p u.
    destruct (CRUDUser.get_by_email _ email) as [u'|] eqn:Hget;
      [|discriminate].
    destruct (verify_password p (User.password_hash u')) eqn:Hp;
      [|discriminate].
    simpl. intros [= <-].
    unfold CRUDUser.get_by_email in Hget.
    apply fmap_Some in Hget as ([i x] & Hfind & ->).
    apply list_find_Some in Hfind as (Hi & He & _).
    split; [by eapply list_elem_of_lookup_2|]. by split.
  - intros email p Hnone.
    by rewrite (proj2 (get_by_email_None _ email) Hnone).
Qed.

(** The user created on the sample store logs in with the password of the
    request and not with another one. *)
Lemma create_user_then_authenticate_witness :
  (∀ p, toy_verify p (toy_hash p) = true)
  ∧ (∃ new_user,
       (create_user toy_hash 60 sample_user_in admin1 sample_db).1
       = inr new_user
       ∧ CRUDUser.authenticate toy_verify
           (create_user toy_hash 60 sample_user_in admin1 sample_db).2
           "new@example.com" "s3cret" = Some new_user)
  ∧ CRUDUser.authenticate toy_verify
      (create_user toy_hash 60 sample_user_in admin1 sample_db).2
      "new@example.com" "guess" = None.
Proof.
  assert (Hverify : ∀ p, toy_verify p (toy_hash p) = true).
  { intros p. unfold toy_verify, toy_hash. apply String.eqb_refl. }
  split; [exact Hverify|].
  destruct (create_user toy_hash 60 sample_user_in admin1 sample_db).1
    as [e|new_user] eqn:Hrun; [discriminate Hrun|].
  destruct (create_user_then_authenticate toy_hash toy_verify sample_db 60
              sample_user_in admin1 new_user Hverify Hrun)
    as (Hlogin & Hwrong & _).
  split; [by exists new_user|].
  apply Hwrong. reflexivity.
Defined.

(** ** More on the audit listings *)


(** X14: [get_recent_logs] filters only for the three role strings it names:
    for any other [user_role] (a different spelling, an unknown role) the
    listing is the unfiltered one an admin gets. *)
Theorem get_recent_logs_unfiltered_for_other_roles
    (db : Session) (limit : nat) (user_role : string) (user_id : Z) :
  user_role ∉ ["manager"; "agent"; "viewer"] →
  get_recent_logs db limit user_role user_id
  = take limit (order_by_timestamp_desc (audit_logs db))
  ∧ get_recent_logs db limit user_role user_id
    = get_recent_logs db limit "admin" user_id.
Proof.
  intros Hother.
  assert (Hm : user_role ≠ "manager").
  { intros ->. apply Hother, list_elem_of_here. }
  assert (Hav : user_role ∉ ["agent"; "viewer"]).
  { intros Hin. apply Hother. by apply list_elem_of_further. }
  unfold get_recent_logs. cbn zeta.
  destruct (decide ("admin" = "admin")) as [_|Hne]; [|done].
  destruct (decide (user_role = "admin")) as [->|Hadmin]; [done|].
  destruct (decide (user_role = "manager")) as [Heq|_]; [done|].
  destruct (decide (user_role ∈ ["agent"; "viewer"])) as [Hin|_]; done.
Qed.

(** The role string in another case is not one the query knows: the manager
    filter is not applied. *)
Lemma get_recent_logs_unfiltered_for_other_roles_witness :
  ("Manager" ∉ ["manager"; "agent"; "viewer"])
  ∧ AuditLog.id <$> get_recent_logs sample_db 10 "Manager" 2 = [5; 4; 3; 2; 1]
  ∧ AuditLog.id <$> get_recent_logs sample_db 10 "manager" 2 = [5; 3; 2].
Proof.
  assert (Hother : "Manager" ∉ ["manager"; "agent"; "viewer"]).
  { apply (bool_decide_unpack _). vm_compute. exact I. }
  split; [exact Hother|]. split; [|reflexivity].
  destruct (get_recent_logs_unfiltered_for_other_roles sample_db 10 "Manager"
              2 Hother) as [-> _].
  reflexivity.
Defined.


(** ** Status counts *)

Lemma sum_list_Permutation (l k : list nat) :
  l ≡ₚ k → sum_list l = sum_list k.
Proof. induction 1; simpl; lia. Qed.

(** A further row of status [s0] adds one to the count of [s0] and to no
    other count. *)
Lemma count_one_more {A} `{!EqDecision A} (l : list A) (s0 : A)
    (column : list (option A)) :
  NoDup l → s0 ∈ l →
  sum_list ((λ s, length (filter (λ x, x = Some s) (Some s0 :: column)))
              <$> l)
  = S (sum_list ((λ s, length (filter (λ x, x = Some s) column)) <$> l)).
Proof.
  induction l as [|s l IH]; intros Hnd Hs0.
  { by apply elem_of_nil in Hs0. }
  apply NoDup_cons in Hnd as [Hs Hnd]. rewrite !fmap_cons. simpl sum_list.
  destruct (decide (s = s0)) as [->|Hne].
  - rewrite filter_cons_True by done. simpl. f_equal. f_equal.
    f_equal. apply list_fmap_ext. intros i s' Hs'.
    rewrite filter_cons_False; [done|]. intros [= <-].
    by apply Hs, (list_elem_of_lookup_2 _ i).
  - rewrite filter_cons_False by congruence.
    apply elem_of_cons in Hs0 as [->|Hs0]; [done|].
    rewrite (IH Hnd Hs0). lia.
Qed.

Section count_by_status_correct.
Context {Status : Type} `{!EqDecision Status}.
Variable all_statuses : list Status.
Variable value : Status → string.
Hypothesis all_statuses_NoDup : NoDup all_statuses.
Hypothesis all_statuses_complete : ∀ s, s ∈ all_statuses.
Hypothesis value_inj : Inj (=) (=) value.

Implicit Types (column : list (option Status)) (m : gmap string nat).

Lemma count_loop_failed (rows : list (option Status * nat)) :
  foldl (count_step value) None rows = None.
Proof. by induction rows. Qed.

Lemma count_loop_null (c : option Status → nat) (l : list (option Status)) m :
  None ∈ l →
  foldl (count_step value) (Some m) ((λ s, (s, c s)) <$> l) = None.
Proof.
  revert m. induction l as [|x l IH]; intros m Hin.
  { by apply elem_of_nil in Hin. }
  destruct x as [s|]; simpl.
  - apply IH. by apply elem_of_cons in Hin as [|].
  - apply count_loop_failed.
Qed.

Lemma count_loop_lookup (c : option Status → nat) (l : list (option Status))
    m :
  NoDup l → None ∉ l →
  ∃ m', foldl (count_step value) (Some m) ((λ s, (s, c s)) <$> l) = Some m'
    ∧ (∀ s, m' !! value s
            = if decide (Some s ∈ l) then Some (c (Some s))
              else m !! value s)
    ∧ (∀ k, (∀ s, k ≠ value s) → m' !! k = m !! k).
Proof.
  revert m. induction l as [|x l IH]; intros m Hnd Hnull.
  { exists m. split; [done|]. split; [|done].
    intros s. rewrite decide_False; [done|]. apply not_elem_of_nil. }
  apply NoDup_cons in Hnd as [Hx Hnd].
  destruct x as [s0|]; [|exfalso; apply Hnull, list_elem_of_here].
  assert (Hnull' : None ∉ l).
  { intros Hin. by apply Hnull, list_elem_of_further. }
  destruct (IH (<[value s0 := c (Some s0)]> m) Hnd Hnull')
    as (m' & Hfold & Hval & Hother).
  exists m'. split; [exact Hfold|]. split.
  - intros s. rewrite Hval.
    destruct (decide (s = s0)) as [->|Hne].
    + rewrite (decide_False (P := Some s0 ∈ l)) by done.
      rewrite decide_True by apply list_elem_of_here.
      apply lookup_insert_eq.
    + rewrite lookup_insert_ne
        by (intros Heq; by apply Hne, (inj value)).
      destruct (decide (Some s ∈ l)) as [Hin|Hnin].
      * rewrite decide_True; [done|]. by apply list_elem_of_further.
      * rewrite decide_False; [done|].
        intros Hin. apply elem_of_cons in Hin as [[= ->]|Hin]; done.
  - intros k Hk. rewrite Hother by done. by rewrite lookup_insert_ne.
Qed.

Lemma zero_counts_lookup (s : Status) :
  (list_to_map ((λ status, (value status, 0%nat)) <$> all_statuses)
     : gmap string nat) !! value s = Some 0%nat.
Proof.
  apply elem_of_list_to_map_1.
  - rewrite <- list_fmap_compose. by apply (NoDup_fmap_2 _).
  - apply list_elem_of_fmap. by exists s.
Qed.

Lemma count_absent column (s : option Status) :
  s ∉ column → length (filter (λ x, x = s) column) = 0%nat.
Proof.
  intros Hs. rewrite filter_none; [done|].
  apply Forall_forall. by intros x Hx ->.
Qed.

(** The rows split over the statuses. *)
Lemma counts_add_up column :
  None ∉ column →
  sum_list ((λ s, length (filter (λ x, x = Some s) column)) <$> all_statuses)
  = length column.
Proof.
  induction column as [|x column IH]; intros Hnull.
  { rewrite (sum_list_fmap_same 0); [simpl; lia|]. by apply Forall_forall. }
  destruct x as [s0|]; [|exfalso; apply Hnull, list_elem_of_here].
  assert (Hnull' : None ∉ column).
  { intros Hin. by apply Hnull, list_elem_of_further. }
  rewrite count_one_more by done. simpl. by rewrite IH.
Qed.

Lemma count_by_status_None column :
  count_by_status all_statuses value column = None ↔ None ∈ column.
Proof.
  unfold count_by_status, group_by_status. cbn zeta. split.
  - intros Hfail. destruct (decide (None ∈ column)) as [|Hnull]; [done|].
    exfalso.
    destruct (count_loop_lookup
                (λ s, length (filter (λ x, x = s) column))
                (remove_dups column)
                (list_to_map ((λ status, (value status, 0%nat))
                                <$> all_statuses)))
      as (m' & Hfold & _).
    + apply NoDup_remove_dups.
    + by rewrite elem_of_remove_dups.
    + rewrite Hfold in Hfail. discriminate.
  - intros Hnull. apply (count_loop_null _ (remove_dups column)).
    by apply elem_of_remove_dups.
Qed.

Lemma count_by_status_Some column stats :
  count_by_status all_statuses value column = Some stats →
  (∀ s, stats !! value s
        = Some (length (filter (λ x, x = Some s) column)))
  ∧ (∀ k, is_Some (stats !! k) ↔ ∃ s, k = value s)
  ∧ sum_values stats = length column.
Proof.
  intros Hstats.
  assert (Hnull : None ∉ column).
  { intros Hin. apply count_by_status_None in Hin. congruence. }
  unfold count_by_status, group_by_status in Hstats. cbn zeta in Hstats.
  destruct (count_loop_lookup
              (λ s, length (filter (λ x, x = s) column))
              (remove_dups column)
              (list_to_map ((λ status, (value status, 0%nat))
                              <$> all_statuses)))
    as (m' & Hfold & Hval & Hother).
  { apply NoDup_remove_dups. }
  { by rewrite elem_of_remove_dups. }
  rewrite Hfold in Hstats. injection Hstats as <-.
  assert (Hcount : ∀ s, m' !! value s
            = Some (length (filter (λ x, x = Some s) column))).
  { intros s. rewrite Hval, zero_counts_lookup.
    case_decide as Hin; [done|].
    rewrite elem_of_remove_dups in Hin. by rewrite count_absent. }
  assert (Hkeys : ∀ k, is_Some (m' !! k) ↔ ∃ s, k = value s).
  { intros k. split.
    - intros Hk. destruct (decide (k ∈ value <$> all_statuses)) as [Hin|Hnin].
      + apply list_elem_of_fmap in Hin as (s & -> & _). by exists s.
      + rewrite Hother in Hk.
        * rewrite not_elem_of_list_to_map_1 in Hk; [by destruct Hk|].
          by rewrite <- list_fmap_compose.
        * intros s ->. apply Hnin, list_elem_of_fmap_2, all_statuses_complete.
    - intros [s ->]. rewrite Hcount. eauto. }
  split; [exact Hcount|]. split; [exact Hkeys|].
  assert (Hmap : m' = list_to_map
            ((λ s, (value s, length (filter (λ x, x = Some s) column)))
               <$> all_statuses)).
  { apply map_eq. intros k.
    destruct (decide (k ∈ value <$> all_statuses)) as [Hin|Hnin].
    - apply list_elem_of_fmap in Hin as (s & -> & Hs). rewrite Hcount.
      symmetry. apply elem_of_list_to_map_1.
      + rewrite <- list_fmap_compose. by apply (NoDup_fmap_2 _).
      + apply list_elem_of_fmap. by exists s.
    - rewrite not_elem_of_list_to_map_1
        by (by rewrite <- list_fmap_compose).
      destruct (m' !! k) eqn:Hk; [|done].
      assert (Hsome : is_Some (m' !! k)) by eauto.
      apply Hkeys in Hsome as [s ->].
      exfalso. apply Hnin, list_elem_of_fmap_2, all_statuses_complete. }
  unfold sum_values. rewrite Hmap.
  rewrite (sum_list_Permutation _
             (snd <$> ((λ s, (value s,
                               length (filter (λ x, x = Some s) column)))
                         <$> all_statuses))).
  - rewrite <- list_fmap_compose. by apply counts_add_up.
  - apply fmap_Permutation, map_to_list_to_map.
    rewrite <- list_fmap_compose. by apply (NoDup_fmap_2 _).
Qed.
End count_by_status_correct.

Lemma all_CandidateStatus_complete (s : CandidateStatus) :
  s ∈ all_CandidateStatus.
Proof. destruct s; unfold all_CandidateStatus; set_solver. Qed.

Lemma all_InterviewStatus_complete (s : InterviewStatus) :
  s ∈ all_InterviewStatus.
Proof. destruct s; unfold all_InterviewStatus; set_solver. Qed.

Lemma all_CandidateStatus_NoDup : NoDup all_CandidateStatus.
Proof. apply (bool_decide_unpack _). by vm_compute. Qed.

Lemma all_InterviewStatus_NoDup : NoDup all_InterviewStatus.
Proof. apply (bool_decide_unpack _). by vm_compute. Qed.

#[local] Instance CandidateStatus_value_inj : Inj (=) (=) CandidateStatus_value.
Proof. intros [] [] H; (reflexivity || discriminate H). Qed.

#[local] Instance InterviewStatus_value_inj : Inj (=) (=) InterviewStatus_value.
Proof. intros [] [] H; (reflexivity || discriminate H). Qed.

Ltac status_facts :=
  first [ apply all_CandidateStatus_NoDup | apply all_InterviewStatus_NoDup
        | apply all_CandidateStatus_complete
        | apply all_InterviewStatus_complete | apply _ ].

Lemma candidate_count_None (column : list (option CandidateStatus)) :
  count_by_status all_CandidateStatus CandidateStatus_value column = None
  ↔ None ∈ column.
Proof. apply count_by_status_None; status_facts. Qed.

Lemma candidate_count_Some (column : list (option CandidateStatus)) stats :
  count_by_status all_CandidateStatus CandidateStatus_value column
  = Some stats →
  (∀ s, stats !! CandidateStatus_value s
        = Some (length (filter (λ x, x = Some s) column)))
  ∧ (∀ k, is_Some (stats !! k) ↔ ∃ s, k = CandidateStatus_value s)
  ∧ sum_values stats = length column.
Proof. apply count_by_status_Some; status_facts. Qed.

(** X16: [CRUDCandidate.count_by_status] raises exactly when some candidate
    has a NULL status.  Otherwise the dictionary has the six status values
    as its keys, each with the number of candidates of that status (0 for a
    status no candidate has), and the values add up to the number of
    candidates. *)
Theorem candidate_count_by_status_counts_rows
    (column : list (option CandidateStatus)) :
  (count_by_status all_CandidateStatus CandidateStatus_value column = None
   ↔ None ∈ column)
  ∧ (∀ stats,
       count_by_status all_CandidateStatus CandidateStatus_value column
       = Some stats →
       (∀ s, stats !! CandidateStatus_value s
             = Some (length (filter (λ x, x = Some s) column)))
       ∧ (∀ k, is_Some (stats !! k) ↔ ∃ s, k = CandidateStatus_value s)
       ∧ sum_values stats = length column).
Proof.
  split; [apply candidate_count_None|].
  intros stats. apply candidate_count_Some.
Qed.

(** X17: [CRUDInterview.count_by_status] behaves the same way over the five
    interview statuses: it raises exactly when some interview has a NULL
    status, and otherwise gives every status its number of interviews, the
    values adding up to the number of interviews. *)
Theorem interview_count_by_status_counts_rows
    (column : list (option InterviewStatus)) :
  (count_by_status all_InterviewStatus InterviewStatus_value column = None
   ↔ None ∈ column)
  ∧ (∀ stats,
       count_by_status all_InterviewStatus InterviewStatus_value column
       = Some stats →
       (∀ s, stats !! InterviewStatus_value s
             = Some (length (filter (λ x, x = Some s) column)))
       ∧ (∀ k, is_Some (stats !! k) ↔ ∃ s, k = InterviewStatus_value s)
       ∧ sum_values stats = length column).
Proof.
  split; [apply count_by_status_None; status_facts|].
  intros stats. apply count_by_status_Some; status_facts.
Qed.

(** X18: [get_candidate_stats] answers a user without the candidates
    permission with the 403 of the page gate before it counts anything; for
    a user with the permission, it reports [total_candidates] equal to the
    number of candidates, together with the per-status counts, and writes
    nothing; when a candidate has a NULL status the request of a permitted
    user fails. *)
Theorem get_candidate_stats_total
    (column : list (option CandidateStatus)) (current_user : User.t)
    (db : Session) :
  (get_user_permissions db current_user !! "candidates" ≠ Some true →
   get_candidate_stats column current_user db
   = (inl (access_denied CANDIDATES), db))
  ∧ (get_user_permissions db current_user !! "candidates" = Some true →
     (None ∈ column →
      ∃ e, get_candidate_stats column current_user db = (inl e, db)
           ∧ status_code e = HTTP_500_INTERNAL_SERVER_ERROR)
     ∧ (None ∉ column →
        ∃ stats,
          get_candidate_stats column current_user db
          = (inr (mkCandidateStats (length column) stats), db)
          ∧ ∀ s, stats !! CandidateStatus_value s
                 = Some (length (filter (λ x, x = Some s) column)))).
Proof.
  unfold get_candidate_stats, bind, raise, ret.
  rewrite check_page_access_spec.
  change (PageName_value CANDIDATES) with "candidates".
  split.
  - intros Hperm. by rewrite decide_False.
  - intros Hperm. rewrite decide_True by done.
    destruct (count_by_status all_CandidateStatus CandidateStatus_value column)
      as [stats|] eqn:Hstats.
    + split.
      * intros Hnull. apply candidate_count_None in Hnull. congruence.
      * intros _. exists stats.
        destruct (candidate_count_Some column stats Hstats)
          as (Hcount & _ & Hsum).
        by rewrite Hsum.
    + split.
      * intros _. eexists. split; reflexivity.
      * intros Hnull. exfalso. by apply Hnull, candidate_count_None.
Qed.

(** The sample manager may see candidates: three candidates, two of them
    new, give a total of three. *)
Lemma get_candidate_stats_total_witness :
  get_user_permissions sample_db manager2 !! "candidates" = Some true
  ∧ (None ∉ [Some NEW; Some HIRED; Some NEW])
  ∧ ∃ stats,
      get_candidate_stats [Some NEW; Some HIRED; Some NEW] manager2 sample_db
      = (inr (mkCandidateStats 3 stats), sample_db)
      ∧ stats !! "new" = Some 2%nat.
Proof.
  assert (Hperm : get_user_permissions sample_db manager2 !! "candidates"
                  = Some true) by reflexivity.
  assert (Hnull : None ∉ [Some NEW; Some HIRED; Some NEW]).
  { apply (bool_decide_unpack _). vm_compute. exact I. }
  split; [exact Hperm|]. split; [exact Hnull|].
  destruct (get_candidate_stats_total [Some NEW; Some HIRED; Some NEW]
              manager2 sample_db) as [_ Hok].
  destruct (Hok Hperm) as [_ Hcount].
  destruct (Hcount Hnull) as (stats & Hrun & Hstats).
  exists stats. split; [exact Hrun|]. exact (Hstats NEW).
Defined.

(** ** CSRF tokens *)

Section strings.
Implicit Types (c a : Ascii.ascii) (s r l : string).

Lemma dot_append s : "." +:+ s = String dot s.
Proof. reflexivity. Qed.

Lemma append_String a r s : String a r +:+ s = String a (r +:+ s).
Proof. reflexivity. Qed.

Lemma rsplit1_absent c s : contains c s = false → rsplit1 c s = None.
Proof.
  induction s as [|a s IH]; [done|]. simpl. intros Hc.
  apply orb_false_iff in Hc as [Ha Hs]. by rewrite (IH Hs), Ha.
Qed.

Lemma rsplit1_append c r s :
  contains c s = false → rsplit1 c (r +:+ String c s) = Some (r, s).
Proof.
  intros Hs. induction r as [|a r IH].
  - simpl. by rewrite (rsplit1_absent c s Hs), Ascii.eqb_refl.
  - rewrite append_String. simpl. by rewrite IH.
Qed.

Lemma rsplit1_Some c s l r :
  rsplit1 c s = Some (l, r) → s = l +:+ String c r ∧ contains c r = false.
Proof.
  revert l. induction s as [|a s IH]; intros l; [done|]. simpl.
  destruct (rsplit1 c s) as [[l' r']|] eqn:Hsplit.
  - intros [= <- <-]. destruct (IH l' eq_refl) as [-> Hr]. by split.
  - destruct (Ascii.eqb a c) eqn:Ha; [|discriminate].
    intros [= <- <-]. apply Ascii.eqb_eq in Ha as ->. split; [done|].
    destruct (contains c s) eqn:Hc; [|done].
    exfalso. clear IH. revert Hsplit Hc.
    induction s as [|b s IHs]; [done|]. simpl.
    destruct (rsplit1 c s) as [[? ?]|]; [discriminate|].
    destruct (Ascii.eqb b c); [discriminate|]. simpl. intros _. by apply IHs.
Qed.

Lemma contains_append_String c r s : contains c (r +:+ String c s) = true.
Proof.
  induction r as [|a r IH]; simpl.
  - by rewrite Ascii.eqb_refl.
  - rewrite IH. apply orb_true_r.
Qed.

Lemma append_String_nonempty c r s : String.eqb (r +:+ String c s) "" = false.
Proof. by destruct r. Qed.
End strings.

Section csrf_correct.
Variable hmac_sha256_hexdigest : string → string → string.
Variable md5_hexdigest : string → string.

(** A hexadecimal digest has no dot in it. *)
Hypothesis hexdigest_no_dot :
  ∀ key message, contains dot (hmac_sha256_hexdigest key message) = false.

Lemma verify_generated (self : CSRFProtection.t)
    (random_value session_id session_id' : string) :
  verify_csrf_token hmac_sha256_hexdigest self
    (generate_csrf_token hmac_sha256_hexdigest self random_value session_id)
    session_id'
  = String.eqb
      (hmac_sha256_hexdigest (CSRFProtection.secret_key self)
         (session_id +:+ ":" +:+ random_value))
      (hmac_sha256_hexdigest (CSRFProtection.secret_key self)
         (session_id' +:+ ":" +:+ random_value)).
Proof.
  unfold verify_csrf_token, generate_csrf_token. cbn zeta.
  rewrite dot_append, append_String_nonempty, contains_append_String.
  simpl. by rewrite rsplit1_append.
Qed.

Lemma csrf_session_unchanged (self : CSRFProtection.t) (request : Request.t)
    (method token : string) :
  get_session_id md5_hexdigest (init_csrf_protection
                                  (CSRFProtection.secret_key self))
    (Request.mk method (<["x-csrftoken" := token]> (Request.headers request))
       (Request.client_host request) (Request.state_user_id request))
  = get_session_id md5_hexdigest (init_csrf_protection
                                    (CSRFProtection.secret_key self)) request.
Proof.
  unfold get_session_id, headers_get. simpl.
  by rewrite lookup_insert_ne.
Qed.
End csrf_correct.

(** X19: a token [generate_csrf_token] makes for a session verifies for that
    session, whatever the random value (a hexadecimal digest has no dot);
    for another session it verifies only if the two sessions' signatures of
    the random value coincide. *)
Theorem csrf_token_round_trip
    (hmac_sha256_hexdigest : string → string → string)
    (self : CSRFProtection.t) (random_value session_id session_id' : string) :
  (∀ key message, contains dot (hmac_sha256_hexdigest key message) = false) →
  verify_csrf_token hmac_sha256_hexdigest self
    (generate_csrf_token hmac_sha256_hexdigest self random_value session_id)
    session_id = true
  ∧ (verify_csrf_token hmac_sha256_hexdigest self
       (generate_csrf_token hmac_sha256_hexdigest self random_value
          session_id) session_id' = true
     ↔ hmac_sha256_hexdigest (CSRFProtection.secret_key self)
         (session_id +:+ ":" +:+ random_value)
       = hmac_sha256_hexdigest (CSRFProtection.secret_key self)
           (session_id' +:+ ":" +:+ random_value)).
Proof.
  intros Hhex. rewrite !verify_generated by done.
  split; [apply String.eqb_refl|apply String.eqb_eq].
Qed.

Lemma toy_digest_no_dot (s : string) : contains dot (toy_digest s) = false.
Proof.
  induction s as [|a s IH]; [reflexivity|]. simpl. rewrite IH.
  by destruct (Nat.even (Ascii.nat_of_ascii a)).
Qed.

(** With the stand-in digest, a token made for session 42 from a random
    value that itself holds a dot verifies for session 42. *)
Lemma csrf_token_round_trip_witness :
  (∀ key message, contains dot (toy_hmac key message) = false)
  ∧ generate_csrf_token toy_hmac (init_csrf_protection "k") "ab.cd" "42"
    = "ab.cd.baaabaaba0"
  ∧ verify_csrf_token toy_hmac (init_csrf_protection "k") "ab.cd.baaabaaba0"
      "42" = true.
Proof.
  assert (Hhex : ∀ key message, contains dot (toy_hmac key message) = false).
  { intros key message. apply toy_digest_no_dot. }
  split; [exact Hhex|]. split; [reflexivity|].
  destruct (csrf_token_round_trip toy_hmac (init_csrf_protection "k")
              "ab.cd" "42" "42" Hhex) as [Hround _].
  exact Hround.
Defined.

(** X20: [verify_csrf_token] accepts only tokens of the form
    [generate_csrf_token] produces for the session: an accepted token is a
    random part, a dot and the signature of session and random part under
    the secret key; the empty token and a token without a dot are
    refused. *)
Theorem verify_csrf_token_accepts_generated_only
    (hmac_sha256_hexdigest : string → string → string)
    (self : CSRFProtection.t) (token session_id : string) :
  (verify_csrf_token hmac_sha256_hexdigest self token session_id = true →
   ∃ random_value,
     token = generate_csrf_token hmac_sha256_hexdigest self random_value
               session_id)
  ∧ (contains dot token = false →
     verify_csrf_token hmac_sha256_hexdigest self token session_id = false)
  ∧ verify_csrf_token hmac_sha256_hexdigest self "" session_id = false.
Proof.
  unfold verify_csrf_token, generate_csrf_token. cbn zeta.
  split; [|split].
  - destruct (String.eqb token "" || negb (contains dot token));
      [discriminate|].
    destruct (rsplit1 dot token) as [[random_value signature]|] eqn:Hsplit;
      [|discriminate].
    intros Heq. apply String.eqb_eq in Heq.
    apply rsplit1_Some in Hsplit as [-> _].
    exists random_value. by rewrite dot_append, <- Heq.
  - intros ->. simpl. by rewrite orb_true_r.
  - done.
Qed.

(** X21: [require_csrf_token] raises the 500 when the protection is not
    initialised and lets GET, HEAD and OPTIONS through without a token.  For
    any other method the request passes exactly when the token header holds
    a non-empty token that verifies for the session of the request; it ends
    in "CSRF token missing" exactly when the header is absent or empty, and
    in "CSRF token invalid" otherwise. *)
Theorem require_csrf_token_outcomes
    (hmac_sha256_hexdigest : string → string → string)
    (md5_hexdigest : string → string)
    (self : CSRFProtection.t) (request : Request.t) :
  let require := require_csrf_token hmac_sha256_hexdigest md5_hexdigest in
  let header := headers_get request (CSRFProtection.header_name self) in
  let session_id := get_session_id md5_hexdigest self request in
  require None request = inl csrf_not_initialized
  ∧ (Request.method request ∈ ["GET"; "HEAD"; "OPTIONS"] →
     require (Some self) request = inr ())
  ∧ (Request.method request ∉ ["GET"; "HEAD"; "OPTIONS"] →
     (require (Some self) request = inr ()
      ↔ ∃ token, header = Some token ∧ token ≠ ""
                 ∧ verify_csrf_token hmac_sha256_hexdigest self token
                     session_id = true)
     ∧ (require (Some self) request = inl csrf_token_missing
        ↔ header = None ∨ header = Some "")
     ∧ (require (Some self) request = inl csrf_token_invalid
        ↔ ∃ token, header = Some token ∧ token ≠ ""
                   ∧ verify_csrf_token hmac_sha256_hexdigest self token
                       session_id = false)).
Proof.
  cbn zeta. unfold require_csrf_token, get_csrf_token_from_request.
  split; [done|]. split.
  - intros Hsafe. by rewrite bool_decide_eq_true_2.
  - intros Hunsafe. rewrite bool_decide_eq_false_2 by done.
    destruct (headers_get request (CSRFProtection.header_name self))
      as [token|] eqn:Hheader.
    + destruct (String.eqb_spec token "") as [->|Hne].
      * split; [|split].
        -- split; [discriminate|]. by intros (t & [= <-] & Hne & _).
        -- split; auto.
        -- split; [discriminate|]. by intros (t & [= <-] & Hne & _).
      * destruct (verify_csrf_token hmac_sha256_hexdigest self token _)
          eqn:Hverify; simpl.
        -- split; [|split].
           ++ split; [|done]. intros _. by exists token.
           ++ split; [discriminate|]. intros [[=]|[= ->]]. done.
           ++ split; [discriminate|].
              intros (t & [= <-] & _ & Hfalse). congruence.
        -- split; [|split].
           ++ split; [discriminate|].
              intros (t & [= <-] & _ & Htrue). congruence.
           ++ split; [discriminate|]. intros [[=]|[= ->]]. done.
           ++ split; [|done]. intros _. by exists token.
    + split; [|split].
      * split; [discriminate|]. by intros (t & [=] & _).
      * split; auto.
      * split; [discriminate|]. by intros (t & [=] & _).
Qed.

(** X22: the token [get_csrf_token] hands out for a request is accepted by
    [require_csrf_token] when it comes back in the [X-CSRFToken] header of a
    request of the same session (same client, user agent and user), for any
    method and any random value; without the header a POST is refused. *)
Theorem issued_csrf_token_is_accepted
    (hmac_sha256_hexdigest : string → string → string)
    (md5_hexdigest : string → string)
    (secret_key random_value method : string) (request : Request.t) :
  (∀ key message, contains dot (hmac_sha256_hexdigest key message) = false) →
  let csrf_protection := Some (init_csrf_protection secret_key) in
  ∃ token,
    get_csrf_token hmac_sha256_hexdigest md5_hexdigest csrf_protection
      random_value request = inr token
    ∧ require_csrf_token hmac_sha256_hexdigest md5_hexdigest csrf_protection
        (Request.mk method
           (<["x-csrftoken" := token]> (Request.headers request))
           (Request.client_host request) (Request.state_user_id request))
      = inr ()
    ∧ require_csrf_token hmac_sha256_hexdigest md5_hexdigest csrf_protection
        (Request.mk "POST" (delete "x-csrftoken" (Request.headers request))
           (Request.client_host request) (Request.state_user_id request))
      = inl csrf_token_missing.
Proof.
  intros Hhex. cbn zeta. eexists. split; [reflexivity|]. split.
  - unfold require_csrf_token. case_bool_decide; [done|].
    unfold get_csrf_token_from_request, headers_get.
    cbn [CSRFProtection.header_name init_csrf_protection Request.headers].
    change (lower "X-CSRFToken") with "x-csrftoken".
    rewrite lookup_insert_eq.
    unfold generate_csrf_token at 1. cbn zeta.
    rewrite dot_append, append_String_nonempty.
    pose proof (csrf_session_unchanged md5_hexdigest
                  (init_csrf_protection secret_key) request method) as Hsid.
    cbn [CSRFProtection.secret_key init_csrf_protection] in Hsid.
    rewrite Hsid, verify_generated by done.
    by rewrite String.eqb_refl.
  - unfold require_csrf_token. rewrite bool_decide_eq_false_2.
    + unfold get_csrf_token_from_request, headers_get.
      cbn [CSRFProtection.header_name init_csrf_protection Request.headers].
      change (lower "X-CSRFToken") with "x-csrftoken".
      by rewrite lookup_delete_eq.
    + cbn [Request.method]. intros Hin.
      apply (bool_decide_pack _) in Hin. by vm_compute in Hin.
Qed.

(** With the stand-in digests: the token issued for the sample request is
    accepted on a POST of the same client. *)
Lemma issued_csrf_token_is_accepted_witness :
  (∀ key message, contains dot (toy_hmac key message) = false)
  ∧ require_csrf_token toy_hmac toy_md5 (Some (init_csrf_protection "k"))
      (Request.mk "POST"
         {[ "user-agent" := "curl/8.0";
            "x-csrftoken" := "r4nd.babbbbbbabaabbabbbaaaaaa0" ]}
         (Some "10.0.0.7") None) = inr ().
Proof.
  assert (Hhex : ∀ key message, contains dot (toy_hmac key message) = false).
  { intros key message. apply toy_digest_no_dot. }
  split; [exact Hhex|].
  destruct (issued_csrf_token_is_accepted toy_hmac toy_md5 "k" "r4nd" "POST"
              sample_request Hhex) as (token & Hissued & Haccepted & _).
  injection Hissued as <-.
  transitivity
    (require_csrf_token toy_hmac toy_md5 (Some (init_csrf_protection "k"))
       (Request.mk "POST"
          (<["x-csrftoken" :=
               generate_csrf_token toy_hmac (init_csrf_protection "k") "r4nd"
                 (get_session_id toy_md5 (init_csrf_protection "k")
                    sample_request)]> (Request.headers sample_request))
          (Request.client_host sample_request)
          (Request.state_user_id sample_request)));
    [|exact Haccepted].
  vm_compute. reflexivity.
Defined.

(** ** The client address of the rate limiter *)

Section stripping.
Implicit Types (c a : Ascii.ascii) (s : string).

Lemma lstrip_no_leading_space s : no_leading_space (lstrip s).
Proof.
  induction s as [|a s IH]; [done|]. simpl.
  destruct (is_space a) eqn:Ha; [done|]. exact Ha.
Qed.

Lemma lstrip_fixed s : no_leading_space s → lstrip s = s.
Proof. destruct s as [|a s]; [done|]. simpl. by intros ->. Qed.

Lemma rstrip_no_leading_space s :
  no_leading_space s → no_leading_space (rstrip s).
Proof.
  destruct s as [|a s]; [done|]. simpl. intros Ha.
  destruct (rstrip s); [by rewrite Ha|done].
Qed.

Lemma rstrip_rstrip s : rstrip (rstrip s) = rstrip s.
Proof.
  induction s as [|a s IH]; [done|]. simpl.
  destruct (rstrip s) as [|b t] eqn:Ht.
  - destruct (is_space a) eqn:Ha; [done|]. simpl. by rewrite Ha.
  - change (rstrip (String a (String b t))) with
      (match rstrip (String b t) with
       | EmptyString =>
           if is_space a then EmptyString else String a EmptyString
       | rest' => String a rest'
       end).
    by rewrite IH.
Qed.

Lemma contains_lstrip c s : contains c s = false → contains c (lstrip s) = false.
Proof.
  induction s as [|a s IH]; [done|]. simpl. intros Hc.
  apply orb_false_iff in Hc as [Ha Hs].
  destruct (is_space a); [by apply IH|]. simpl. by rewrite Ha, Hs.
Qed.

Lemma contains_rstrip c s : contains c s = false → contains c (rstrip s) = false.
Proof.
  induction s as [|a s IH]; [done|]. simpl. intros Hc.
  apply orb_false_iff in Hc as [Ha Hs]. specialize (IH Hs).
  destruct (rstrip s) as [|b t].
  - destruct (is_space a); [done|]. simpl. by rewrite Ha.
  - change (contains c (String a (String b t)))
      with (Ascii.eqb a c || contains c (String b t)).
    by rewrite Ha, IH.
Qed.

Lemma contains_before_first c s : contains c (before_first c s) = false.
Proof.
  induction s as [|a s IH]; [done|]. simpl.
  destruct (Ascii.eqb a c) eqn:Ha; [done|]. simpl. by rewrite Ha, IH.
Qed.
End stripping.

(** X23: [get_client_ip] trusts the request headers before the connection:
    a non-empty [X-Forwarded-For] decides alone, giving its part before the
    first comma with the surrounding white space removed (a value without
    comma and without white space at either end, whatever [X-Real-IP] and
    the peer address are); failing that a non-empty [X-Real-IP] is returned
    as sent; only when both are absent or empty is the peer address
    used. *)
Theorem get_client_ip_precedence
    (request : Request.t) (remote_address : string) :
  let forwarded := headers_get request "X-Forwarded-For" in
  let real_ip := headers_get request "X-Real-IP" in
  let ip := get_client_ip request remote_address in
  (∀ f, forwarded = Some f → f ≠ "" →
     ip = strip (before_first comma f)
     ∧ contains comma ip = false
     ∧ lstrip ip = ip ∧ rstrip ip = ip)
  ∧ (header_set forwarded = false →
     ∀ r, real_ip = Some r → r ≠ "" → ip = r)
  ∧ (header_set forwarded = false → header_set real_ip = false →
     ip = remote_address).
Proof.
  cbn zeta. unfold get_client_ip. cbn zeta. split; [|split].
  - intros f Hf Hne. rewrite Hf. simpl.
    destruct (String.eqb_spec f "") as [->|_]; [done|]. simpl.
    split; [done|]. unfold strip. split; [|split].
    + apply contains_rstrip, contains_lstrip, contains_before_first.
    + apply lstrip_fixed, rstrip_no_leading_space, lstrip_no_leading_space.
    + apply rstrip_rstrip.
  - intros -> r Hr Hne. rewrite Hr. simpl.
    by destruct (String.eqb_spec r "").
  - by intros -> ->.
Qed.

(** A forwarded header naming two hops with blanks around the first, next
    to another real-ip header: the first hop is the client address. *)
Lemma get_client_ip_precedence_witness :
  get_client_ip
    (Request.mk "GET"
       {[ "x-forwarded-for" := " 203.0.113.9 , 10.0.0.1";
          "x-real-ip" := "198.51.100.4" ]} (Some "10.0.0.7") None)
    "10.0.0.7" = "203.0.113.9".
Proof.
  destruct (get_client_ip_precedence
              (Request.mk "GET"
                 {[ "x-forwarded-for" := " 203.0.113.9 , 10.0.0.1";
                    "x-real-ip" := "198.51.100.4" ]} (Some "10.0.0.7") None)
              "10.0.0.7") as (Hforwarded & _).
  destruct (Hforwarded " 203.0.113.9 , 10.0.0.1") as (-> & _);
    [reflexivity|discriminate|reflexivity].
Defined.

(** ** Security headers *)

Lemma add_security_headers_lookup (security_settings : SecuritySettings.t)
    (headers : gmap string string) (k : string) :
  _add_security_headers security_settings headers !! k
  = if decide (k = "server") then None
    else if decide (k = "permissions-policy") then Some permissions_policy
    else if decide (k = "referrer-policy")
         then Some "strict-origin-when-cross-origin"
    else if decide (k = "x-xss-protection") then Some "1; mode=block"
    else if decide (k = "x-frame-options") then Some "DENY"
    else if decide (k = "x-content-type-options") then Some "nosniff"
    else if decide (k = "strict-transport-security")
         then if SecuritySettings.session_cookie_secure security_settings
              then Some (hsts_value security_settings)
              else headers !! k
    else if decide (k = "content-security-policy")
         then if String.eqb
                   (SecuritySettings.content_security_policy
                      security_settings) ""
              then headers !! k
              else Some (SecuritySettings.content_security_policy
                           security_settings)
    else headers !! k.
Proof.
  unfold _add_security_headers, hsts_value. cbn zeta.
  change (lower "Content-Security-Policy") with "content-security-policy".
  change (lower "Strict-Transport-Security") with "strict-transport-security".
  change (lower "X-Content-Type-Options") with "x-content-type-options".
  change (lower "X-Frame-Options") with "x-frame-options".
  change (lower "X-XSS-Protection") with "x-xss-protection".
  change (lower "Referrer-Policy") with "referrer-policy".
  change (lower "Permissions-Policy") with "permissions-policy".
  change (lower "Server") with "server".
  destruct (String.eqb _ "");
    destruct (SecuritySettings.session_cookie_secure security_settings);
    simpl; case_bool_decide; repeat case_decide; subst;
    simplify_map_eq; try done;
    by apply eq_None_not_Some.
Qed.

(** X24: whatever headers the response carries, after
    [_add_security_headers] it has no [Server] header and has the five fixed
    headers with their values, overwriting any value they had; the HSTS
    header is set when [session_cookie_secure] holds and otherwise left as
    it was, the policy header is set when the policy is not empty; every
    other header is untouched; and adding the headers a second time changes
    nothing.  With the headers disabled, [dispatch] returns the headers as
    they came. *)
Theorem add_security_headers_effect
    (security_settings : SecuritySettings.t) (headers : gmap string string) :
  let out := _add_security_headers security_settings headers in
  out !! "server" = None
  ∧ out !! "x-content-type-options" = Some "nosniff"
  ∧ out !! "x-frame-options" = Some "DENY"
  ∧ out !! "x-xss-protection" = Some "1; mode=block"
  ∧ out !! "referrer-policy" = Some "strict-origin-when-cross-origin"
  ∧ out !! "permissions-policy" = Some permissions_policy
  ∧ out !! "strict-transport-security"
    = (if SecuritySettings.session_cookie_secure security_settings
       then Some (hsts_value security_settings)
       else headers !! "strict-transport-security")
  ∧ out !! "content-security-policy"
    = (if String.eqb (SecuritySettings.content_security_policy
                        security_settings) ""
       then headers !! "content-security-policy"
       else Some (SecuritySettings.content_security_policy security_settings))
  ∧ (∀ k, k ∉ managed_headers → out !! k = headers !! k)
  ∧ _add_security_headers security_settings out = out
  ∧ (SecuritySettings.security_headers_enabled security_settings = false →
     dispatch security_settings headers = headers)
  ∧ (SecuritySettings.security_headers_enabled security_settings = true →
     dispatch security_settings headers = out).
Proof.
  cbn zeta. rewrite !add_security_headers_lookup. simpl.
  do 8 (split; [reflexivity|]). split; [|split; [|split]].
  - intros k Hk. rewrite add_security_headers_lookup.
    assert (Hall : Forall (λ name, k ≠ name) managed_headers).
    { apply Forall_forall. intros name Hname ->. done. }
    unfold managed_headers in Hall. simpl in Hall.
    repeat (apply Forall_cons in Hall as [? Hall]).
    by repeat (rewrite decide_False by done).
  - apply map_eq. intros k. rewrite !add_security_headers_lookup.
    repeat case_decide; try done.
    + by destruct (SecuritySettings.session_cookie_secure security_settings).
    + by destruct (String.eqb _ "").
  - unfold dispatch. by intros ->.
  - unfold dispatch. by intros ->.
Qed.

(** With the development settings (no secure cookies) a response that came
    with a [Server] header leaves without it and without an HSTS header. *)
Example development_security_headers :
  let out :=
    dispatch development_security_settings
      {[ "server" := "uvicorn"; "content-type" := "application/json" ]} in
  out !! "server" = None
  ∧ out !! "strict-transport-security" = None
  ∧ out !! "x-frame-options" = Some "DENY"
  ∧ out !! "content-type" = Some "application/json".
Proof. vm_compute. repeat split; reflexivity. Qed.
